(** * Volcano batch scheduler of the Spark operator: resource aggregation
      and PodGroup synchronisation

    Shallow embedding of
    [spark-operator/pkg/batchscheduler/volcano/volcano_scheduler.go]
    together with the owner-reference step of the pod-mutation webhook
    exercised by [spark-operator/pkg/webhook/patch_test.go].

    Layout:
    - the external packages the scheduler is written against
      ([resource], [fmt], the Volcano clientset) as interfaces;
    - the API objects the code reads and writes;
    - the resource aggregator ([getExecutorRequestResource],
      [getDriverRequestResource], [sumResourceList]);
    - the coordinator ([syncPodGroup], [syncPodGroupInClientMode],
      [syncPodGroupInClusterMode], [DoBatchSchedulingOnSubmission]) in a
      state monad over the Go heap, the cluster and the trace of API calls;
    - reference implementations of the interfaces, used to run the code;
    - the properties. *)

From stdpp Require Import gmap strings list fin_maps pretty.
From Stdlib Require Import ZArith Lia Ascii.

Local Open Scope Z_scope.
Local Open Scope string_scope.

(** ** External packages *)

(** [k8s.io/apimachinery/pkg/api/resource] and the one [fmt] verb applied to
    a number.  [ParseQuantity] returns [(Quantity, error)]: [None] stands for
    a non-nil error.  [Add] is the [Add] method of a [Quantity], read as
    the value of the receiver after the call.  [Sprintf_f] is [fmt.Sprintf("%f", x)] on the
    [float32] behind [Cores]. *)
Class ResourcePkg : Type := {
  Quantity : Type;
  Float32 : Type;
  ParseQuantity : string → option Quantity;
  Add : Quantity → Quantity → Quantity;
  Sprintf_f : Float32 → string
}.

(** [k8s.io/apimachinery/pkg/api/errors]: the reason carried by an API
    status error. *)
Inductive StatusReason : Type :=
| StatusReasonUnknown
| StatusReasonNotFound
| StatusReasonAlreadyExists
| StatusReasonConflict.

(** A Go [error] value: an API status error or a plain formatted error.
    A nil error is [None] in [option error]. *)
Inductive error : Type :=
| StatusError (reason : StatusReason) (message : string)
| errorString (s : string).

Definition Error (e : error) : string :=
  match e with
  | StatusError _ message => message
  | errorString s => s
  end.

Definition IsNotFound (err : error) : bool :=
  match err with
  | StatusError StatusReasonNotFound _ => true
  | _ => false
  end.

Definition IsAlreadyExists (err : error) : bool :=
  match err with
  | StatusError StatusReasonAlreadyExists _ => true
  | _ => false
  end.

(** The [%s] verb of [fmt] applied to an [error] interface value: the
    message of a non-nil error, and the bad-verb rendering of nil. *)
Definition fmt_s (err : option error) : string :=
  match err with
  | Some e => Error e
  | None => "%!s(<nil>)"
  end.

(** ** API objects *)

Record OwnerReference : Type := {
  orAPIVersion : string;
  orKind : string;
  orName : string;
  orUID : string;
  orController : option bool;
  orBlockOwnerDeletion : option bool
}.

Definition ClientMode : string := "client".
Definition ClusterMode : string := "cluster".
Definition GroupNameAnnotationKey : string := "scheduling.k8s.io/group-name".
Definition ResourceCPU : string := "cpu".
Definition ResourceMemory : string := "memory".

Section Scheduler.
Context `{RP : ResourcePkg}.

(** [corev1.ResourceList] is [map[ResourceName]Quantity]. *)
Abbreviation ResourceList := (gmap string Quantity).

(** Modelled from the spec: the declarations of [v1beta1.SparkPodSpec],
    [DriverSpec] and [ExecutorSpec] are not part of the sources at hand; only
    their uses are.  The fields are those the scheduler reads, laid out as the
    data model's RoleSpec gives them: the CPU and memory strings, the numeric
    cores and the annotations for both roles, the instance count for the
    executor only.  A pointer field is an [option] ([None] is nil), and so is
    the annotation map, which Go lets be nil. *)
Record SparkPodSpec : Type := {
  Cores : option Float32;
  CoreRequest : option string;
  CoreLimit : option string;
  Memory : option string;
  MemoryOverhead : option string;
  Annotations : option (gmap string string)
}.

Record DriverSpec : Type := { DriverPod : SparkPodSpec }.

Record ExecutorSpec : Type := {
  ExecutorPod : SparkPodSpec;
  Instances : option Z
}.

Record SparkApplicationSpec : Type := {
  Mode : string;
  Driver : DriverSpec;
  Executor : ExecutorSpec
}.

Record SparkApplication : Type := {
  Name : string;
  Namespace : string;
  UID : string;
  Spec : SparkApplicationSpec
}.

Record PodGroupSpec : Type := {
  MinMember : Z;
  MinResources : option ResourceList
}.

Record PodGroup : Type := {
  pgNamespace : string;
  pgName : string;
  pgOwnerReferences : list OwnerReference;
  pgSpec : PodGroupSpec
}.

(** ** Resource aggregator *)

(** The body of the two nested loops of [sumResourceList] for one entry. *)
Definition addEntry (name : string) (quantity : Quantity)
    (totalResource : ResourceList) : ResourceList :=
  match totalResource !! name with
  | None => <[name := quantity]> totalResource
  | Some value => <[name := Add value quantity]> totalResource
  end.

Definition sumResourceList (list : list ResourceList) : ResourceList :=
  foldl (λ totalResource l, map_fold addEntry totalResource l) ∅ list.

(** [minResource[name] = value] when the string parses, nothing otherwise. *)
Definition setParsed (name s : string) (minResource : ResourceList)
    : ResourceList :=
  match ParseQuantity s with
  | Some value => <[name := value]> minResource
  | None => minResource
  end.

(** The same, guarded by [if _, ok := minResource[name]; !ok]. *)
Definition setParsedIfAbsent (name s : string) (minResource : ResourceList)
    : ResourceList :=
  match minResource !! name with
  | None => setParsed name s minResource
  | Some _ => minResource
  end.

(** The memory-overhead block: the parsed overhead is added to an existing
    memory entry and dropped when there is none. *)
Definition addOverhead (s : string) (minResource : ResourceList)
    : ResourceList :=
  match ParseQuantity s with
  | Some value =>
      match minResource !! ResourceMemory with
      | Some existing => <[ResourceMemory := Add existing value]> minResource
      | None => minResource
      end
  | None => minResource
  end.

Definition onSet {A : Type} (field : option A)
    (step : A → ResourceList → ResourceList) (m : ResourceList)
    : ResourceList :=
  match field with
  | Some x => step x m
  | None => m
  end.

(** Lines 161-201 of [getExecutorRequestResource]: the vector of one
    executor instance, before it is multiplied. *)
Definition executorMinResource (app : SparkApplication) : ResourceList :=
  let executor := ExecutorPod (Executor (Spec app)) in
  let minResource : ResourceList := ∅ in
  let minResource :=
    onSet (CoreRequest executor) (setParsed ResourceCPU) minResource in
  let minResource :=
    onSet (Cores executor)
      (λ cores, setParsedIfAbsent ResourceCPU (Sprintf_f cores)) minResource in
  let minResource :=
    onSet (CoreLimit executor) (setParsedIfAbsent ResourceCPU) minResource in
  let minResource :=
    onSet (Memory executor) (setParsed ResourceMemory) minResource in
  onSet (MemoryOverhead executor) addOverhead minResource.

(** Lines 203-207: the loop appends [minResource] once per instance to a list
    that starts with one empty vector.  The loop condition dereferences
    [Instances] on its first test, so a nil pointer panics: [None].  The
    counter is an [int32] that stops at the count, so it never wraps; a
    negative count runs the loop zero times, as [Z.to_nat] does. *)
Definition getExecutorRequestResource (app : SparkApplication)
    : option ResourceList :=
  let minResource := executorMinResource app in
  match Instances (Executor (Spec app)) with
  | None => None
  | Some instances =>
      let resourceList :=
        ([∅] ++ replicate (Z.to_nat instances) minResource)%list in
      Some (sumResourceList resourceList)
  end.

Definition getDriverRequestResource (app : SparkApplication) : ResourceList :=
  let driver := DriverPod (Driver (Spec app)) in
  let minResource : ResourceList := ∅ in
  let minResource :=
    onSet (Cores driver)
      (λ cores, setParsed ResourceCPU (Sprintf_f cores)) minResource in
  let minResource :=
    onSet (CoreLimit driver) (setParsedIfAbsent ResourceCPU) minResource in
  let minResource :=
    onSet (Memory driver) (setParsed ResourceMemory) minResource in
  onSet (MemoryOverhead driver) addOverhead minResource.

(** ** Cluster API *)

(** The typed client for PodGroups the scheduler holds in [volcanoClient]:
    [PodGroups(namespace).Get], [Create] and [Update], each a transition of
    the cluster.  [Get] yields the object or a non-nil error; of [Create] and
    [Update] the code keeps the error only. *)
Class PodGroupInterface (Cluster : Type) : Type := {
  pgGet : string → string → Cluster → (PodGroup + error) * Cluster;
  pgCreate : string → PodGroup → Cluster → option error * Cluster;
  pgUpdate : string → PodGroup → Cluster → option error * Cluster
}.

Inductive ApiCall : Type :=
| CallGet (namespace name : string)
| CallCreate (namespace : string) (podGroup : PodGroup)
| CallUpdate (namespace : string) (podGroup : PodGroup).

Context {Cluster : Type} `{PG : PodGroupInterface Cluster}.

(** ** Program state and its monad *)

(** What a call of the scheduler can touch: the Go heap of applications (a
    pointer is an index, and [DeepCopy] allocates at the end), the cluster
    behind the client, and the API calls issued so far, oldest first. *)
Record World : Type := {
  heap : list SparkApplication;
  cluster : Cluster;
  calls : list ApiCall
}.

(** A Go call either returns or panics. *)
Inductive Outcome (A : Type) : Type :=
| Normal (a : A) (w : World)
| Panicked (msg : string) (w : World).
Arguments Normal {A} a w.
Arguments Panicked {A} msg w.

Definition M (A : Type) : Type := World → Outcome A.

Definition ret {A : Type} (a : A) : M A := λ w, Normal a w.

Definition bind {A B : Type} (c : M A) (k : A → M B) : M B :=
  λ w, match c w with
       | Normal a w' => k a w'
       | Panicked msg w' => Panicked msg w'
       end.

Notation "'let*' x := c 'in' k" := (bind c (λ x, k))
  (at level 10, x name, c at level 100, k at level 200, only parsing).
Notation "'exec' c 'then' k" := (bind c (λ _, k))
  (at level 10, c at level 100, k at level 200, only parsing).

Definition panic {A : Type} (msg : string) : M A := λ w, Panicked msg w.

Definition nilDereference : string :=
  "invalid memory address or nil pointer dereference".
Definition nilMapAssignment : string := "assignment to entry in nil map".

Definition load (p : nat) : M SparkApplication :=
  λ w, match heap w !! p with
       | Some a => Normal a w
       | None => Panicked nilDereference w
       end.

(** A write through a pointer; the code only writes where it has just read,
    so the index is always within the heap. *)
Definition store (p : nat) (a : SparkApplication) : M unit :=
  λ w, Normal tt
         {| heap := <[p := a]> (heap w); cluster := cluster w;
            calls := calls w |}.

Definition DeepCopy (p : nat) : M nat :=
  let* a := load p in
  λ w, Normal (length (heap w))
         {| heap := (heap w ++ [a])%list; cluster := cluster w;
            calls := calls w |}.

Definition orPanic {A : Type} (o : option A) : M A :=
  match o with
  | Some a => ret a
  | None => panic nilDereference
  end.

Definition apiGet (namespace name : string) : M (PodGroup + error) :=
  λ w, let '(r, c) := pgGet namespace name (cluster w) in
       Normal r {| heap := heap w; cluster := c;
                   calls := (calls w ++ [CallGet namespace name])%list |}.

Definition apiCreate (namespace : string) (podGroup : PodGroup)
    : M (option error) :=
  λ w, let '(r, c) := pgCreate namespace podGroup (cluster w) in
       Normal r {| heap := heap w; cluster := c;
                   calls := (calls w ++ [CallCreate namespace podGroup])%list |}.

Definition apiUpdate (namespace : string) (podGroup : PodGroup)
    : M (option error) :=
  λ w, let '(r, c) := pgUpdate namespace podGroup (cluster w) in
       Normal r {| heap := heap w; cluster := c;
                   calls := (calls w ++ [CallUpdate namespace podGroup])%list |}.

(** ** Field updates *)

Definition withAnnotations (m : option (gmap string string))
    (pod : SparkPodSpec) : SparkPodSpec :=
  {| Cores := Cores pod; CoreRequest := CoreRequest pod;
     CoreLimit := CoreLimit pod; Memory := Memory pod;
     MemoryOverhead := MemoryOverhead pod; Annotations := m |}.

Definition withExecutorAnnotations (m : option (gmap string string))
    (a : SparkApplication) : SparkApplication :=
  {| Name := Name a; Namespace := Namespace a; UID := UID a;
     Spec := {| Mode := Mode (Spec a); Driver := Driver (Spec a);
                Executor :=
                  {| ExecutorPod :=
                       withAnnotations m (ExecutorPod (Executor (Spec a)));
                     Instances := Instances (Executor (Spec a)) |} |} |}.

Definition withDriverAnnotations (m : option (gmap string string))
    (a : SparkApplication) : SparkApplication :=
  {| Name := Name a; Namespace := Namespace a; UID := UID a;
     Spec := {| Mode := Mode (Spec a);
                Driver :=
                  {| DriverPod :=
                       withAnnotations m (DriverPod (Driver (Spec a))) |};
                Executor := Executor (Spec a) |} |}.

Definition executorAnnotations (a : SparkApplication)
    : option (gmap string string) :=
  Annotations (ExecutorPod (Executor (Spec a))).

Definition driverAnnotations (a : SparkApplication)
    : option (gmap string string) :=
  Annotations (DriverPod (Driver (Spec a))).

(** [_, ok := annotations[key]]: reading a nil map finds nothing. *)
Definition hasKey (key : string) (annotations : option (gmap string string))
    : bool :=
  match annotations with
  | Some m => bool_decide (is_Some (m !! key))
  | None => false
  end.

(** [annotations[key] = value]: writing a nil map panics. *)
Definition setKey (key value : string)
    (annotations : option (gmap string string))
    : option (gmap string string) :=
  match annotations with
  | Some m => Some (<[key := value]> m)
  | None => None
  end.

Definition setExecutorAnnotation (p : nat) (key value : string) : M unit :=
  let* a := load p in
  match setKey key value (executorAnnotations a) with
  | Some m => store p (withExecutorAnnotations (Some m) a)
  | None => panic nilMapAssignment
  end.

Definition setDriverAnnotation (p : nat) (key value : string) : M unit :=
  let* a := load p in
  match setKey key value (driverAnnotations a) with
  | Some m => store p (withDriverAnnotations (Some m) a)
  | None => panic nilMapAssignment
  end.

(** ** Coordinator *)

Definition getAppPodGroupName (a : SparkApplication) : string :=
  "spark-" ++ Name a ++ "-pg".

(** [v1.NewControllerRef(app, SchemeGroupVersion.WithKind("SparkApplication"))]. *)
Definition NewControllerRef (a : SparkApplication) : OwnerReference :=
  {| orAPIVersion := "sparkoperator.k8s.io/v1beta1";
     orKind := "SparkApplication";
     orName := Name a;
     orUID := UID a;
     orController := Some true;
     orBlockOwnerDeletion := Some true |}.

Definition withMinMember (size : Z) (pg : PodGroup) : PodGroup :=
  {| pgNamespace := pgNamespace pg; pgName := pgName pg;
     pgOwnerReferences := pgOwnerReferences pg;
     pgSpec := {| MinMember := size;
                  MinResources := MinResources (pgSpec pg) |} |}.

(** The [v1alpha2.PodGroup] literal of [syncPodGroup]. *)
Definition newPodGroup (a : SparkApplication) (podGroupName : string)
    (size : Z) (minResource : ResourceList) : PodGroup :=
  {| pgNamespace := Namespace a;
     pgName := podGroupName;
     pgOwnerReferences := [NewControllerRef a];
     pgSpec := {| MinMember := size;
                  MinResources := Some minResource |} |}.

(** The error built on the last line of [syncPodGroup]. *)
Definition syncError (err : option error) : error :=
  errorString ("failed to sync PodGroup with error: " ++ fmt_s err
               ++ ". Abandon schedule pods via volcano").

(** [syncPodGroup].  The function declares [var err error] and then, in the
    [if pg, err := ...Get(...); err != nil] statement, a second [err] whose
    scope is that statement, both branches included.  The assignments
    [_, err = ...Create(...)] and [_, err = ...Update(pg)] sit inside the
    statement and write the inner variable; the final [return fmt.Errorf(...,
    err)] sits after it and reads the outer one, which nothing ever assigns.
    The two variables are kept apart here as [err] and [errInner]. *)
Definition syncPodGroup (app : nat) (size : Z) (minResource : ResourceList)
    : M (option error) :=
  let* a := load app in
  let err : option error := None in
  let podGroupName := getAppPodGroupName a in
  let* r := apiGet (Namespace a) podGroupName in
  match r with
  | inr errInner =>
      if negb (IsNotFound errInner) then ret (Some errInner)
      else
        let podGroup := newPodGroup a podGroupName size minResource in
        let* errInner := apiCreate (Namespace a) podGroup in
        ret (Some (syncError err))
  | inl pg =>
      if negb (MinMember (pgSpec pg) =? size)%Z then
        let pg := withMinMember size pg in
        let* errInner := apiUpdate (Namespace a) pg in
        ret (Some (syncError err))
      else ret (Some (syncError err))
  end.

(** The callers are written against the Sync step [sync], so that their own
    logic (the annotation guard, the arguments handed to Sync, the stamping
    on success) can be stated for any outcome of Sync.  The methods of the
    scheduler are the instances at [syncPodGroup], defined right after. *)
Section Callers.
Variable sync : nat → Z → ResourceList → M (option error).

Definition syncPodGroupInClientModeWith (app : nat)
    : M (option nat * option error) :=
  let* newApp := DeepCopy app in
  let* n := load newApp in
  if negb (hasKey GroupNameAnnotationKey (executorAnnotations n)) then
    let* a := load app in
    let* minResource := orPanic (getExecutorRequestResource a) in
    let* err := sync newApp 1 minResource in
    match err with
    | None =>
        let* n := load newApp in
        exec setExecutorAnnotation newApp GroupNameAnnotationKey
               (getAppPodGroupName n) then
        ret (Some newApp, None)
    | Some e => ret (None, Some e)
    end
  else ret (Some newApp, None).

Definition syncPodGroupInClusterModeWith (app : nat)
    : M (option nat * option error) :=
  let* a := load app in
  if negb (hasKey GroupNameAnnotationKey (driverAnnotations a)) then
    let* executorResource := orPanic (getExecutorRequestResource a) in
    let totalResource :=
      sumResourceList [executorResource; getDriverRequestResource a] in
    let* err := sync app 1 totalResource in
    match err with
    | None =>
        let* a := load app in
        exec setExecutorAnnotation app GroupNameAnnotationKey
               (getAppPodGroupName a) then
        let* a := load app in
        exec setDriverAnnotation app GroupNameAnnotationKey
               (getAppPodGroupName a) then
        ret (Some app, None)
    | Some e => ret (None, Some e)
    end
  else ret (Some app, None).

Definition DoBatchSchedulingOnSubmissionWith (app : nat)
    : M (option nat * option error) :=
  let* newApp := DeepCopy app in
  let* n := load newApp in
  exec (if executorAnnotations n is None
        then store newApp (withExecutorAnnotations (Some ∅) n)
        else ret tt) then
  let* n := load newApp in
  exec (if driverAnnotations n is None
        then store newApp (withDriverAnnotations (Some ∅) n)
        else ret tt) then
  let* n := load newApp in
  if bool_decide (Mode (Spec n) = ClientMode) then
    syncPodGroupInClientModeWith newApp
  else if bool_decide (Mode (Spec n) = ClusterMode) then
    syncPodGroupInClusterModeWith newApp
  else ret (Some newApp, None).

End Callers.

Definition syncPodGroupInClientMode : nat → M (option nat * option error) :=
  syncPodGroupInClientModeWith syncPodGroup.

Definition syncPodGroupInClusterMode : nat → M (option nat * option error) :=
  syncPodGroupInClusterModeWith syncPodGroup.

Definition DoBatchSchedulingOnSubmission
    : nat → M (option nat * option error) :=
  DoBatchSchedulingOnSubmissionWith syncPodGroup.

(** ** Notions used to state the properties *)

Inductive Role : Type := DriverRole | ExecutorRole.

Definition rolePod (role : Role) (a : SparkApplication) : SparkPodSpec :=
  match role with
  | DriverRole => DriverPod (Driver (Spec a))
  | ExecutorRole => ExecutorPod (Executor (Spec a))
  end.

(** The vector of one pod of the role: the driver's vector, and the
    executor's before it is multiplied by the instance count. *)
Definition roleVector (role : Role) (a : SparkApplication) : ResourceList :=
  match role with
  | DriverRole => getDriverRequestResource a
  | ExecutorRole => executorMinResource a
  end.

(** What one pass of [sumResourceList] over a vector does to one entry. *)
Definition addOpt (t q : option Quantity) : option Quantity :=
  match q with
  | None => t
  | Some quantity =>
      Some (match t with Some value => Add value quantity | None => quantity end)
  end.

(** [q] added to itself [n] more times, the first operand being the running
    total as in [value.Add(quantity)]. *)
Definition repeatAdd (n : nat) (q : Quantity) : Quantity :=
  Nat.iter n (λ value, Add value q) q.

(** The first candidate that is present and parses. *)
Fixpoint firstParsed (candidates : list (option string)) : option Quantity :=
  match candidates with
  | [] => None
  | c :: rest =>
      match c ≫= ParseQuantity with
      | Some q => Some q
      | None => firstParsed rest
      end
  end.

(** The chain as the specification words it, for any role: the first
    candidate that is present decides. *)
Definition cpuFirstPresent (pod : SparkPodSpec) : option Quantity :=
  match CoreRequest pod, Cores pod, CoreLimit pod with
  | Some s, _, _ => ParseQuantity s
  | None, Some cores, _ => ParseQuantity (Sprintf_f cores)
  | None, None, Some s => ParseQuantity s
  | None, None, None => None
  end.

(** The memory entry both role functions compute, from the two strings. *)
Definition memoryEntry (pod : SparkPodSpec) : option Quantity :=
  match Memory pod ≫= ParseQuantity with
  | Some memory =>
      Some (match MemoryOverhead pod ≫= ParseQuantity with
            | Some overhead => Add memory overhead
            | None => memory
            end)
  | None => None
  end.

(** The world after [DeepCopy] put a copy at the end of the heap. *)
Definition pushApp (a : SparkApplication) (w : World) : World :=
  {| heap := (heap w ++ [a])%list; cluster := cluster w; calls := calls w |}.

(** The world after the fetch of the job's group left the cluster as [c]. *)
Definition afterGet (a : SparkApplication) (c : Cluster) (w : World) : World :=
  {| heap := heap w; cluster := c;
     calls := (calls w ++ [CallGet (Namespace a) (getAppPodGroupName a)])%list |}.

(** The application after the two nil checks at the head of
    [DoBatchSchedulingOnSubmission]. *)
Definition ensureAnnotations (a : SparkApplication) : SparkApplication :=
  let a :=
    if executorAnnotations a is None
    then withExecutorAnnotations (Some ∅) a else a in
  if driverAnnotations a is None
  then withDriverAnnotations (Some ∅) a else a.

(** The annotation guard of the mode the job runs in. *)
Definition alreadyAnnotated (a : SparkApplication) : bool :=
  if bool_decide (Mode (Spec a) = ClientMode)
  then hasKey GroupNameAnnotationKey (executorAnnotations a)
  else hasKey GroupNameAnnotationKey (driverAnnotations a).

Definition groupAnnotation (annotations : option (gmap string string))
    : option string :=
  annotations ≫= (.!! GroupNameAnnotationKey).

(** [x] carries the group annotations [a] carries, no more. *)
Definition sameGroupAnnotations (a x : SparkApplication) : Prop :=
  groupAnnotation (executorAnnotations x)
  = groupAnnotation (executorAnnotations a)
  ∧ groupAnnotation (driverAnnotations x)
    = groupAnnotation (driverAnnotations a).

Definition finalWorld {A : Type} (o : Outcome A) : World :=
  match o with
  | Normal _ w => w
  | Panicked _ w => w
  end.

Definition returned {A : Type} (o : Outcome A) : option A :=
  match o with
  | Normal a _ => Some a
  | Panicked _ _ => None
  end.

End Scheduler.

Arguments Normal {RP Cluster A} a w.
Arguments Panicked {RP Cluster A} msg w.

Notation "'let*' x := c 'in' k" := (bind c (λ x, k))
  (at level 10, x name, c at level 100, k at level 200, only parsing).
Notation "'exec' c 'then' k" := (bind c (λ _, k))
  (at level 10, c at level 100, k at level 200, only parsing).

(** ** Reference implementations of the interfaces

    Used to run the scheduler on concrete jobs; the general properties below
    hold for every implementation. *)
Module Reference.

(** A quantity is its amount in units of 10^-9, the finest step
    [ParseQuantity] keeps (it rounds up to it).  The grammar is that of the
    package: optional sign, integer digits, optional fraction, then a suffix
    that is empty, a decimal SI prefix, a binary SI prefix or a decimal
    exponent.  The cap at the largest 64-bit amount is left out. *)
Definition isDigit (c : ascii) : bool :=
  let n := nat_of_ascii c in (48 <=? n)%nat && (n <=? 57)%nat.

Fixpoint spanDigits (l : list ascii) : list ascii * list ascii :=
  match l with
  | c :: rest =>
      if isDigit c
      then let '(ds, tl) := spanDigits rest in (c :: ds, tl)
      else ([], l)
  | [] => ([], [])
  end.

Definition digitsValue (ds : list ascii) : Z :=
  foldl (λ acc c, 10 * acc + (Z.of_nat (nat_of_ascii c) - 48)) 0 ds.

(** The multiplier of a suffix as a fraction. *)
Definition suffixTable (suffix : string) : option (Z * Z) :=
  if String.eqb suffix "" then Some (1, 1)
  else if String.eqb suffix "n" then Some (1, 10 ^ 9)
  else if String.eqb suffix "u" then Some (1, 10 ^ 6)
  else if String.eqb suffix "m" then Some (1, 10 ^ 3)
  else if String.eqb suffix "k" then Some (10 ^ 3, 1)
  else if String.eqb suffix "M" then Some (10 ^ 6, 1)
  else if String.eqb suffix "G" then Some (10 ^ 9, 1)
  else if String.eqb suffix "T" then Some (10 ^ 12, 1)
  else if String.eqb suffix "P" then Some (10 ^ 15, 1)
  else if String.eqb suffix "E" then Some (10 ^ 18, 1)
  else if String.eqb suffix "Ki" then Some (2 ^ 10, 1)
  else if String.eqb suffix "Mi" then Some (2 ^ 20, 1)
  else if String.eqb suffix "Gi" then Some (2 ^ 30, 1)
  else if String.eqb suffix "Ti" then Some (2 ^ 40, 1)
  else if String.eqb suffix "Pi" then Some (2 ^ 50, 1)
  else if String.eqb suffix "Ei" then Some (2 ^ 60, 1)
  else None.

Definition exponentSuffix (l : list ascii) : option (Z * Z) :=
  match l with
  | c :: rest =>
      if Ascii.eqb c "e" || Ascii.eqb c "E" then
        let '(negative, rest) :=
          match rest with
          | s :: rest' =>
              if Ascii.eqb s "-" then (true, rest')
              else if Ascii.eqb s "+" then (false, rest')
              else (false, rest)
          | [] => (false, rest)
          end in
        match spanDigits rest with
        | (d :: ds, []) =>
            let e := digitsValue (d :: ds) in
            Some (if negative : bool then (1, 10 ^ e) else (10 ^ e, 1))
        | _ => None
        end
      else None
  | [] => None
  end.

Definition interpretSuffix (l : list ascii) : option (Z * Z) :=
  match suffixTable (String.string_of_list_ascii l) with
  | Some r => Some r
  | None => exponentSuffix l
  end.

Definition ceilDiv (x y : Z) : Z := (x + y - 1) / y.

Definition parseNano (str : string) : option Z :=
  match String.list_ascii_of_string str with
  | [] => None
  | c :: rest =>
      let '(positive, l) :=
        if Ascii.eqb c "-" then (false, rest)
        else if Ascii.eqb c "+" then (true, rest)
        else (true, c :: rest) in
      let '(num, l) := spanDigits l in
      let '(denom, l) :=
        match l with
        | dot :: l' =>
            if Ascii.eqb dot "." then spanDigits l' else ([], l)
        | [] => ([], l)
        end in
      match interpretSuffix l with
      | Some (up, down) =>
          let magnitude :=
            ceilDiv (digitsValue (num ++ denom)%list * up * 10 ^ 9)
                    (10 ^ Z.of_nat (length denom) * down) in
          Some (if positive : bool then magnitude else - magnitude)
      | None => None
      end
  end.

(** [%f] of a whole number of cores: six zero decimals. *)
Definition formatWhole (cores : Z) : string := pretty cores ++ ".000000".

#[export] Instance nanoResource : ResourcePkg := {|
  Quantity := Z;
  Float32 := Z;
  ParseQuantity := parseNano;
  Add := Z.add;
  Sprintf_f := formatWhole
|}.

(** An in-memory cluster in the manner of the clientset's object tracker:
    [Create] refuses a key already present, [Update] one that is missing.
    Two switches stand for the world outside the call: [rival], a group that
    a concurrent submission gets created right after the next fetch that
    finds nothing, and [outage], an error every call fails with. *)
Record FakeCluster : Type := {
  objects : gmap (string * string) PodGroup;
  rival : option PodGroup;
  outage : option error
}.

Definition notFound (name : string) : error :=
  StatusError StatusReasonNotFound
    ("podgroups.scheduling.sigs.dev " ++ name ++ " not found").

Definition alreadyExists (name : string) : error :=
  StatusError StatusReasonAlreadyExists
    ("podgroups.scheduling.sigs.dev " ++ name ++ " already exists").

Definition landRival (c : FakeCluster) : FakeCluster :=
  match rival c with
  | Some pg =>
      {| objects := <[(pgNamespace pg, pgName pg) := pg]> (objects c);
         rival := None; outage := outage c |}
  | None => c
  end.

Definition fakeGet (namespace name : string) (c : FakeCluster)
    : (PodGroup + error) * FakeCluster :=
  match outage c with
  | Some e => (inr e, c)
  | None =>
      match objects c !! (namespace, name) with
      | Some pg => (inl pg, c)
      | None => (inr (notFound name), landRival c)
      end
  end.

Definition fakeCreate (namespace : string) (pg : PodGroup) (c : FakeCluster)
    : option error * FakeCluster :=
  match outage c with
  | Some e => (Some e, c)
  | None =>
      match objects c !! (namespace, pgName pg) with
      | Some _ => (Some (alreadyExists (pgName pg)), c)
      | None =>
          (None, {| objects := <[(namespace, pgName pg) := pg]> (objects c);
                    rival := rival c; outage := outage c |})
      end
  end.

Definition fakeUpdate (namespace : string) (pg : PodGroup) (c : FakeCluster)
    : option error * FakeCluster :=
  match outage c with
  | Some e => (Some e, c)
  | None =>
      match objects c !! (namespace, pgName pg) with
      | Some _ =>
          (None, {| objects := <[(namespace, pgName pg) := pg]> (objects c);
                    rival := rival c; outage := outage c |})
      | None => (Some (notFound (pgName pg)), c)
      end
  end.

#[export] Instance fakeClient : PodGroupInterface FakeCluster := {|
  pgGet := fakeGet;
  pgCreate := fakeCreate;
  pgUpdate := fakeUpdate
|}.

(** *** Jobs and clusters to run the code on *)

Definition podSpec (cores : option Z) (coreRequest coreLimit : option string)
    (memory memoryOverhead : option string)
    (annotations : option (gmap string string)) : SparkPodSpec :=
  {| Cores := cores; CoreRequest := coreRequest; CoreLimit := coreLimit;
     Memory := memory; MemoryOverhead := memoryOverhead;
     Annotations := annotations |}.

Definition job (name mode : string) (driver executor : SparkPodSpec)
    (instances : option Z) : SparkApplication :=
  {| Name := name; Namespace := "default"; UID := name ++ "-uid";
     Spec := {| Mode := mode;
                Driver := {| DriverPod := driver |};
                Executor := {| ExecutorPod := executor;
                               Instances := instances |} |} |}.

Definition world (apps : list SparkApplication) (c : FakeCluster) : World :=
  {| heap := apps; cluster := c; calls := [] |}.

Definition clusterOf (groups : list PodGroup) : FakeCluster :=
  {| objects := list_to_map ((λ pg, ((pgNamespace pg, pgName pg), pg)) <$> groups);
     rival := None; outage := None |}.

(** The role of the fallback example: request 2, cores 4, limit 8. *)
Definition podRequestCoresLimit : SparkPodSpec :=
  podSpec (Some 4) (Some "2") (Some "8") None None None.

Definition jobFallback : SparkApplication :=
  job "fallback" ClusterMode podRequestCoresLimit podRequestCoresLimit (Some 1).

(** Three executors of 1Gi each. *)
Definition jobThreeExecutors : SparkApplication :=
  job "three" ClientMode (podSpec None None None None None None)
    (podSpec None None None (Some "1Gi") None None) (Some 3).

(** A driver with memory and overhead, an executor with overhead only. *)
Definition jobMemory : SparkApplication :=
  job "memory" ClusterMode
    (podSpec None None None (Some "512Mi") (Some "128Mi") None)
    (podSpec None None None None (Some "1Gi") None) (Some 2).

Definition jobMemoryOnly : SparkApplication :=
  job "memory-only" ClusterMode
    (podSpec None None None (Some "512Mi") None None)
    (podSpec None None None (Some "512Mi") None None) (Some 2).

(** An application in the manner of the integration guide, in either mode. *)
Definition sparkPi (mode : string) (instances : option Z)
    : SparkApplication :=
  job "spark-pi" mode
    (podSpec (Some 1) None (Some "1200m") (Some "512m") None None)
    (podSpec (Some 1) None None (Some "512m") None None) instances.

Definition stamped : option (gmap string string) :=
  Some {[ GroupNameAnnotationKey := "spark-spark-pi-pg" ]}.

(** The same application with the group annotation already on the role the
    mode looks at. *)
Definition sparkPiAnnotated (mode : string) : SparkApplication :=
  job "spark-pi" mode
    (podSpec (Some 1) None (Some "1200m") (Some "512m") None stamped)
    (podSpec (Some 1) None None (Some "512m") None stamped) (Some 1).

Definition sparkPiGroup (minMember : Z) : PodGroup :=
  newPodGroup (sparkPi ClusterMode (Some 1)) "spark-spark-pi-pg" minMember ∅.

(** A Sync step that always succeeds, to exercise the success branch of the
    callers. *)
Definition syncOk
    : nat → Z → gmap string Quantity → @M nanoResource FakeCluster (option error) :=
  λ _ _ _, ret None.

(** A cluster that already holds the group of [sparkPi], sized as asked. *)
Definition worldMatching : World :=
  world [sparkPi ClusterMode (Some 1)] (clusterOf [sparkPiGroup 1]).

Definition worldEmpty (a : SparkApplication) : World := world [a] (clusterOf []).

(** The race of two submissions: nothing is there at the fetch, and the
    rival's group, sized 5, is there at the create. *)
Definition worldRace : World :=
  world [sparkPi ClusterMode (Some 1)]
    {| objects := ∅; rival := Some (sparkPiGroup 5); outage := None |}.

(** The same cluster once the rival's group has landed. *)
Definition worldFound : World :=
  world [sparkPi ClusterMode (Some 1)] (clusterOf [sparkPiGroup 5]).

(** More jobs: strings that do not parse, a negative instance count, a
    single instance, and a mode that is neither client nor cluster. *)
Definition jobUnparsable : SparkApplication :=
  job "unparsable" ClusterMode
    (podSpec None None (Some "plenty") (Some "lots") (Some "1Gi") None)
    (podSpec None (Some "two") (Some "a few") (Some "much") (Some "1Gi") None)
    (Some 2).

Definition jobBadOverhead : SparkApplication :=
  job "bad-overhead" ClusterMode
    (podSpec None None None (Some "512Mi") (Some "a bit") None)
    (podSpec None None None (Some "a lot") (Some "128Mi") None) (Some 1).

Definition jobNegativeInstances : SparkApplication :=
  job "negative" ClientMode podRequestCoresLimit podRequestCoresLimit
    (Some (-2)).

Definition jobOneExecutor : SparkApplication :=
  job "one" ClientMode podRequestCoresLimit
    (podSpec (Some 1) None None (Some "512Mi") (Some "128Mi") None) (Some 1).

Definition InClusterClientMode : string := "in-cluster-client".

(** A cluster every call to which fails with the same opaque error. *)
Definition connectionRefused : error := errorString "connection refused".

Definition worldOutage (a : SparkApplication) : World :=
  world [a] {| objects := ∅; rival := None; outage := Some connectionRefused |}.

End Reference.

(** ** Owner reference of the pod-mutation webhook *)
Module Webhook.
Section Patch.
Context `{RP : ResourcePkg}.

(** The part of [corev1.Pod] the owner-reference test looks at. *)
Record Pod : Type := {
  podName : string;
  podOwnerReferences : list OwnerReference
}.

Inductive PatchValue : Type :=
| OwnerReferenceValue (reference : OwnerReference)
| OwnerReferenceListValue (references : list OwnerReference).

Inductive PatchOp : Type := OpAdd | OpReplace.

Record PatchOperation : Type := {
  Op : PatchOp;
  Path : string;
  Value : PatchValue
}.

(** Modelled from the spec: the reference to the job a patch carries; the
    helper that builds it is not part of the sources at hand. *)
Definition GetOwnerReference (app : SparkApplication) : OwnerReference :=
  {| orAPIVersion := "sparkoperator.k8s.io/v1beta1";
     orKind := "SparkApplication";
     orName := Name app;
     orUID := UID app;
     orController := Some true;
     orBlockOwnerDeletion := None |}.

(** Modelled from the spec: the patch builder of the webhook ([patchSparkPod]
    and the step that adds the owner reference) is not part of the sources
    at hand, only its test is.  The rule is: always append a reference to the
    job, whatever references the pod has, as an [add] operation that is valid
    against the pod document.  A pod without references has no
    [ownerReferences] member in its document, so the member is added with a
    one-element list; otherwise the reference is added at the end of the
    existing array. *)
Definition addOwnerReference (pod : Pod) (app : SparkApplication)
    : PatchOperation :=
  match podOwnerReferences pod with
  | [] =>
      {| Op := OpAdd; Path := "/metadata/ownerReferences";
         Value := OwnerReferenceListValue [GetOwnerReference app] |}
  | _ :: _ =>
      {| Op := OpAdd; Path := "/metadata/ownerReferences/-";
         Value := OwnerReferenceValue (GetOwnerReference app) |}
  end.

(** Modelled from the spec: the patch sequence, cut down to the one feature
    that touches the owner references. *)
Definition patchSparkPod (pod : Pod) (app : SparkApplication)
    : list PatchOperation :=
  [addOwnerReference pod app].

(** One JSON-patch operation on the pod document, as far as the owner
    references go: [add] or [replace] of the member sets it, [add] at the
    [-] index appends to the array and fails when there is none, and any
    other path leaves the references alone. *)
Definition applyOperation (operation : PatchOperation) (pod : Pod)
    : option Pod :=
  let references := podOwnerReferences pod in
  if String.eqb (Path operation) "/metadata/ownerReferences" then
    match Op operation, Value operation, references with
    | OpAdd, OwnerReferenceListValue l, _
    | OpReplace, OwnerReferenceListValue l, _ :: _ =>
        Some {| podName := podName pod; podOwnerReferences := l |}
    | _, _, _ => None
    end
  else if String.eqb (Path operation) "/metadata/ownerReferences/-" then
    match Op operation, Value operation, references with
    | OpAdd, OwnerReferenceValue r, _ :: _ =>
        Some {| podName := podName pod;
                podOwnerReferences := (references ++ [r])%list |}
    | _, _, _ => None
    end
  else Some pod.

(** [getModifiedPod] of the test: build the patch and apply it. *)
Definition getModifiedPod (pod : Pod) (app : SparkApplication)
    : option Pod :=
  foldl (λ document operation, document ≫= applyOperation operation)
    (Some pod) (patchSparkPod pod app).

End Patch.
End Webhook.

(** ** Construction of the scheduler *)
Section Construction.

(** The three things [New] asks of the outside: the two clientset
    constructors and the fetch of a custom resource definition by name, of
    which the code keeps the error only. *)
Variables Config VolcanoClient ExtensionClient : Type.
Variable volcanoNewForConfig : Config → VolcanoClient + error.
Variable extensionNewForConfig : Config → ExtensionClient + error.
Variable getCustomResourceDefinition : ExtensionClient → string → option error.

Record VolcanoBatchScheduler : Type := {
  extensionClient : ExtensionClient;
  volcanoClient : VolcanoClient
}.

Definition PodGroupName : string := "podgroups.scheduling.sigs.dev".

Definition GetPluginName : string := "volcano".

(** [New]: the pair [(scheduler, error)] has exactly one non-nil side, so it
    is a sum here.  The verbs [%v] and [%s] both print the error's message. *)
Definition New (config : Config) : VolcanoBatchScheduler + error :=
  match volcanoNewForConfig config with
  | inr err =>
      inr (errorString
             ("failed to initialize volcano client with error " ++ Error err))
  | inl vkClient =>
      match extensionNewForConfig config with
      | inr err =>
          inr (errorString
                 ("failed to initialize k8s extension client with error "
                  ++ Error err))
      | inl extClient =>
          match getCustomResourceDefinition extClient PodGroupName with
          | Some err =>
              inr (errorString
                     ("podGroup CRD is required to exists in current cluster error: "
                      ++ Error err))
          | None =>
              inl {| extensionClient := extClient;
                     volcanoClient := vkClient |}
          end
      end
  end.

End Construction.

(** ** Further notions *)
Section FurtherNotions.
Context `{RP : ResourcePkg}.

(** The inner loop of [sumResourceList] run over the entries of a vector in
    a given order; Go leaves the order of a map range open. *)
Definition rangeInto (totalResource : gmap string Quantity)
    (entries : list (string * Quantity)) : gmap string Quantity :=
  foldl (λ total entry, addEntry entry.1 entry.2 total) totalResource entries.

(** A field that is nil or holds a string that does not parse. *)
Definition unusable (field : option string) : Prop :=
  field ≫= ParseQuantity = None.

(** A call that writes to the cluster. *)
Definition isWrite (call : @ApiCall RP) : bool :=
  match call with
  | CallGet _ _ => false
  | CallCreate _ _ | CallUpdate _ _ => true
  end.

End FurtherNotions.

(** * Properties *)

Section AggregatorProperties.
Context `{RP : ResourcePkg}.
Implicit Types (m total : gmap string Quantity) (app : SparkApplication).

Lemma lookup_addEntry name quantity total k :
  addEntry name quantity total !! k
  = if decide (name = k) then addOpt (total !! k) (Some quantity)
    else total !! k.
Proof.
  unfold addEntry. case_decide as Hk.
  - subst k. destruct (total !! name); simpl; by rewrite lookup_insert_eq.
  - destruct (total !! name); by rewrite lookup_insert_ne.
Qed.

Lemma lookup_map_fold_addEntry total m k :
  map_fold addEntry total m !! k = addOpt (total !! k) (m !! k).
Proof.
  revert k. apply (map_fold_weak_ind
    (λ r m', ∀ k, r !! k = addOpt (total !! k) (m' !! k))).
  - intros k. by rewrite lookup_empty.
  - intros i x m' r Hi IH k. rewrite lookup_addEntry. case_decide as Hk.
    + subst k. rewrite lookup_insert_eq, IH, Hi. done.
    + rewrite lookup_insert_ne by done. apply IH.
Qed.

Lemma lookup_foldl_sum (l : list (gmap string Quantity)) total k :
  foldl (λ t v, map_fold addEntry t v) total l !! k
  = foldl (λ t v, addOpt t (v !! k)) (total !! k) l.
Proof.
  revert total. induction l as [|v l IH]; intros total; simpl; [done|].
  by rewrite IH, lookup_map_fold_addEntry.
Qed.

Lemma lookup_sumResourceList (l : list (gmap string Quantity)) k :
  sumResourceList l !! k = foldl (λ t v, addOpt t (v !! k)) None l.
Proof. unfold sumResourceList. by rewrite lookup_foldl_sum, lookup_empty. Qed.

Lemma sumResourceList_skip_empty (l : list (gmap string Quantity)) :
  sumResourceList (∅ :: l) = sumResourceList l.
Proof.
  apply map_eq. intros k. rewrite !lookup_sumResourceList. simpl.
  by rewrite lookup_empty.
Qed.

Lemma foldl_addOpt_replicate (n : nat) (q : Quantity) :
  foldl (λ t v, addOpt t v) (Some q) (replicate n (Some q))
  = Some (repeatAdd n q).
Proof.
  unfold repeatAdd.
  assert (∀ acc, foldl (λ t v, addOpt t v) (Some acc) (replicate n (Some q))
                 = Some (Nat.iter n (λ value, Add value q) acc)) as H.
  { induction n as [|n IH]; intros acc; simpl; [done|].
    rewrite IH. f_equal. clear IH. induction n as [|n IH]; simpl; [done|].
    by rewrite IH. }
  apply H.
Qed.

Lemma foldl_addOpt_lookup_replicate (n : nat) m k acc :
  foldl (λ t v, addOpt t (v !! k)) acc (replicate n m)
  = foldl (λ t v, addOpt t v) acc (replicate n (m !! k)).
Proof. revert acc. induction n as [|n IH]; intros acc; simpl; [done|apply IH]. Qed.

Lemma foldl_addOpt_absent (n : nat) acc :
  foldl (λ t v, addOpt t v) acc (replicate n None) = acc.
Proof. induction n as [|n IH]; simpl; [done|apply IH]. Qed.

Lemma lookup_sum_replicate (n : nat) m k :
  sumResourceList (replicate n m) !! k
  = match n with
    | O => None
    | S n' => repeatAdd n' <$> m !! k
    end.
Proof.
  rewrite lookup_sumResourceList, foldl_addOpt_lookup_replicate.
  destruct n as [|n]; [done|]. destruct (m !! k) as [q|]; simpl.
  - apply foldl_addOpt_replicate.
  - apply foldl_addOpt_absent.
Qed.

(** *** The steps of the per-role vectors, entry by entry *)

Lemma lookup_setParsed name s m k :
  setParsed name s m !! k
  = if decide (name = k)
    then match ParseQuantity s with Some q => Some q | None => m !! k end
    else m !! k.
Proof.
  unfold setParsed. destruct (ParseQuantity s); case_decide; subst; try done.
  - by rewrite lookup_insert_eq.
  - by rewrite lookup_insert_ne.
Qed.

Lemma lookup_setParsedIfAbsent name s m k :
  setParsedIfAbsent name s m !! k
  = if decide (name = k)
    then match m !! k with
         | Some q => Some q
         | None => ParseQuantity s
         end
    else m !! k.
Proof.
  unfold setParsedIfAbsent. case_decide as Hk.
  - subst k. destruct (m !! name) eqn:Hm; [done|].
    rewrite lookup_setParsed, decide_True by done.
    by destruct (ParseQuantity s).
  - destruct (m !! name); [done|]. by rewrite lookup_setParsed, decide_False.
Qed.

Lemma lookup_addOverhead s m k :
  addOverhead s m !! k
  = if decide (ResourceMemory = k)
    then match ParseQuantity s, m !! k with
         | Some value, Some existing => Some (Add existing value)
         | _, o => o
         end
    else m !! k.
Proof.
  unfold addOverhead. case_decide as Hk.
  - subst k. destruct (ParseQuantity s); [|done].
    destruct (m !! ResourceMemory) eqn:Hm; [|done]. by rewrite lookup_insert_eq.
  - destruct (ParseQuantity s); [|done].
    destruct (m !! ResourceMemory); [|done]. by rewrite lookup_insert_ne.
Qed.

Local Ltac solve_entry :=
  repeat (rewrite ?lookup_addOverhead, ?lookup_setParsed,
            ?lookup_setParsedIfAbsent, ?lookup_empty; simpl);
  repeat (case_match; simplify_eq/=; try done); try done.

Lemma executorMinResource_cpu app :
  executorMinResource app !! ResourceCPU
  = let executor := ExecutorPod (Executor (Spec app)) in
    firstParsed [CoreRequest executor; Sprintf_f <$> Cores executor;
                 CoreLimit executor].
Proof.
  unfold executorMinResource, onSet. cbn zeta.
  destruct (ExecutorPod (Executor (Spec app)))
    as [cores request limit memory overhead ann]; simpl.
  destruct overhead, memory, limit, cores, request; simpl;
    solve_entry.
Qed.

Lemma getDriverRequestResource_cpu app :
  getDriverRequestResource app !! ResourceCPU
  = let driver := DriverPod (Driver (Spec app)) in
    firstParsed [Sprintf_f <$> Cores driver; CoreLimit driver].
Proof.
  unfold getDriverRequestResource, onSet. cbn zeta.
  destruct (DriverPod (Driver (Spec app)))
    as [cores request limit memory overhead ann]; simpl.
  destruct overhead, memory, limit, cores; simpl;
    solve_entry.
Qed.

Lemma executorMinResource_memory app :
  executorMinResource app !! ResourceMemory
  = memoryEntry (ExecutorPod (Executor (Spec app))).
Proof.
  unfold executorMinResource, onSet, memoryEntry. cbn zeta.
  destruct (ExecutorPod (Executor (Spec app)))
    as [cores request limit memory overhead ann]; simpl.
  destruct overhead, memory, limit, cores, request; simpl;
    solve_entry.
Qed.

Lemma getDriverRequestResource_memory app :
  getDriverRequestResource app !! ResourceMemory
  = memoryEntry (DriverPod (Driver (Spec app))).
Proof.
  unfold getDriverRequestResource, onSet, memoryEntry. cbn zeta.
  destruct (DriverPod (Driver (Spec app)))
    as [cores request limit memory overhead ann]; simpl.
  destruct overhead, memory, limit, cores; simpl;
    solve_entry.
Qed.

(** *** Claims on the aggregator *)

(** C2 (as amended).  The CPU entry of an executor pod's vector is the first
    of core request, formatted cores and core limit that is present and
    parses; the CPU entry of the driver's vector is the first of formatted
    cores and core limit that is present and parses, the driver's core
    request not being consulted. *)
Theorem cpu_fallback_chain app :
  roleVector ExecutorRole app !! ResourceCPU
  = firstParsed [CoreRequest (rolePod ExecutorRole app);
                 Sprintf_f <$> Cores (rolePod ExecutorRole app);
                 CoreLimit (rolePod ExecutorRole app)]
  ∧ roleVector DriverRole app !! ResourceCPU
    = firstParsed [Sprintf_f <$> Cores (rolePod DriverRole app);
                   CoreLimit (rolePod DriverRole app)].
Proof.
  split; [apply executorMinResource_cpu | apply getDriverRequestResource_cpu].
Qed.

(** C7.  With an instance count [n >= 0] the aggregate executor vector is the
    per-instance vector summed [n] times: entry by entry, nothing for
    [n = 0] and the per-instance quantity added up [n] times otherwise; for
    [n = 0] it is the empty vector, and the call returns in every case. *)
Theorem executor_multiplicity app (n : Z) :
  Instances (Executor (Spec app)) = Some n →
  (0 ≤ n)%Z →
  ∃ aggregate,
    getExecutorRequestResource app = Some aggregate
    ∧ aggregate
      = sumResourceList (replicate (Z.to_nat n) (executorMinResource app))
    ∧ (∀ name,
         aggregate !! name
         = match Z.to_nat n with
           | O => None
           | S n' => repeatAdd n' <$> executorMinResource app !! name
           end)
    ∧ (n = 0 → aggregate = ∅).
Proof.
  intros Hn Hpos. unfold getExecutorRequestResource. rewrite Hn.
  eexists. split; [reflexivity|]. simpl.
  rewrite sumResourceList_skip_empty. split; [done|]. split.
  - intros name. apply lookup_sum_replicate.
  - intros ->. done.
Qed.

(** C8.  For either role, the memory entry of the vector of one pod is memory
    plus overhead when both are set and parse, memory alone when it parses
    and no overhead is set, and absent when memory is unset, whatever the
    overhead. *)
Theorem memory_resolution (role : Role) app :
  let pod := rolePod role app in
  let vector := roleVector role app in
  (∀ (memory overhead : string) qm qo,
     Memory pod = Some memory → ParseQuantity memory = Some qm →
     MemoryOverhead pod = Some overhead → ParseQuantity overhead = Some qo →
     vector !! ResourceMemory = Some (Add qm qo))
  ∧ (∀ (memory : string) qm,
       Memory pod = Some memory → ParseQuantity memory = Some qm →
       MemoryOverhead pod = None →
       vector !! ResourceMemory = Some qm)
  ∧ (Memory pod = None → vector !! ResourceMemory = None).
Proof.
  cbn zeta.
  assert (roleVector role app !! ResourceMemory
          = memoryEntry (rolePod role app)) as ->.
  { destruct role; simpl;
      [apply getDriverRequestResource_memory
      |apply executorMinResource_memory]. }
  unfold memoryEntry. repeat split.
  - intros memory overhead qm qo -> Hm -> Ho. simpl. by rewrite Hm, Ho.
  - intros memory qm -> Hm ->. simpl. by rewrite Hm.
  - intros ->. done.
Qed.

(** With memory unset the aggregate executor vector has no memory entry
    either, for any instance count. *)
Lemma overhead_without_memory_dropped app aggregate :
  Memory (rolePod ExecutorRole app) = None →
  getExecutorRequestResource app = Some aggregate →
  aggregate !! ResourceMemory = None.
Proof.
  intros Hm. unfold getExecutorRequestResource.
  destruct (Instances _) as [n|]; [|done]. intros [= <-]. simpl.
  rewrite sumResourceList_skip_empty, lookup_sum_replicate.
  destruct (Z.to_nat n); [done|].
  rewrite executorMinResource_memory. unfold memoryEntry.
  simpl in Hm. by rewrite Hm.
Qed.

End AggregatorProperties.

Section CoordinatorProperties.
Context `{RP : ResourcePkg} {Cluster : Type} {PG : PodGroupInterface Cluster}.
Implicit Types (w : @World RP Cluster) (a n : SparkApplication) (p app : nat).

(** *** Heap steps *)

Lemma DeepCopy_eq p w a :
  heap w !! p = Some a →
  DeepCopy p w = Normal (length (heap w)) (pushApp a w).
Proof. intros H. unfold DeepCopy, bind, load. by rewrite H. Qed.

Lemma load_eq p w a : heap w !! p = Some a → load p w = Normal a w.
Proof. intros H. unfold load. by rewrite H. Qed.

Lemma lookup_pushApp_new a w : heap (pushApp a w) !! length (heap w) = Some a.
Proof. simpl. by rewrite list_lookup_middle. Qed.

Lemma lookup_pushApp_old p a b w :
  heap w !! p = Some a → heap (pushApp b w) !! p = Some a.
Proof. intros H. simpl. by apply lookup_app_l_Some. Qed.

Lemma store_pushed a b w :
  store (length (heap w)) b (pushApp a w) = Normal tt (pushApp b w).
Proof.
  unfold store, pushApp. simpl. do 2 f_equal.
  rewrite insert_app_r_alt by lia. by rewrite Nat.sub_diag.
Qed.

Lemma length_pushApp a w : length (heap (pushApp a w)) = S (length (heap w)).
Proof. simpl. rewrite length_app. simpl. lia. Qed.

(** *** [syncPodGroup], case by case *)

Lemma syncPodGroup_eq p size res w a :
  heap w !! p = Some a →
  syncPodGroup p size res w
  = let namespace := Namespace a in
    let name := getAppPodGroupName a in
    let '(r, c1) := pgGet namespace name (cluster w) in
    let w1 := afterGet a c1 w in
    match r with
    | inl pg =>
        if (MinMember (pgSpec pg) =? size)%Z
        then Normal (Some (syncError None)) w1
        else
          let pg' := withMinMember size pg in
          Normal (Some (syncError None))
            {| heap := heap w; cluster := (pgUpdate namespace pg' c1).2;
               calls := (calls w1 ++ [CallUpdate namespace pg'])%list |}
    | inr e =>
        if IsNotFound e
        then
          let podGroup := newPodGroup a name size res in
          Normal (Some (syncError None))
            {| heap := heap w; cluster := (pgCreate namespace podGroup c1).2;
               calls := (calls w1 ++ [CallCreate namespace podGroup])%list |}
        else Normal (Some e) w1
    end.
Proof.
  intros H. unfold syncPodGroup, bind. rewrite (load_eq _ _ _ H).
  cbn zeta. unfold apiGet.
  destruct (pgGet (Namespace a) (getAppPodGroupName a) (cluster w))
    as [[pg|e] c1]; simpl.
  - destruct (MinMember (pgSpec pg) =? size)%Z; simpl; [done|].
    unfold apiUpdate; simpl. by destruct (pgUpdate _ _ c1).
  - destruct (IsNotFound e); simpl; [|done].
    unfold apiCreate; simpl. by destruct (pgCreate _ _ c1).
Qed.

(** Whatever the cluster answers, [syncPodGroup] returns a non-nil error
    and leaves the heap alone. *)
Lemma syncPodGroup_always_errors p size res w a :
  heap w !! p = Some a →
  ∃ e w', syncPodGroup p size res w = Normal (Some e) w'
          ∧ heap w' = heap w.
Proof.
  intros H. rewrite (syncPodGroup_eq _ _ _ _ _ H). cbn zeta.
  destruct (pgGet _ _ _) as [[pg|e] c1].
  - destruct (_ =? _)%Z; eauto.
  - destruct (IsNotFound e); eauto.
Qed.

(** *** [ensureAnnotations] keeps everything but nil maps *)

Lemma ensureAnnotations_fields a :
  let a1 := ensureAnnotations a in
  Name a1 = Name a ∧ Namespace a1 = Namespace a ∧ UID a1 = UID a
  ∧ Mode (Spec a1) = Mode (Spec a)
  ∧ Instances (Executor (Spec a1)) = Instances (Executor (Spec a))
  ∧ executorAnnotations a1 = Some (default ∅ (executorAnnotations a))
  ∧ driverAnnotations a1 = Some (default ∅ (driverAnnotations a))
  ∧ executorMinResource a1 = executorMinResource a
  ∧ getDriverRequestResource a1 = getDriverRequestResource a.
Proof.
  destruct a as [nm ns uid [mode [[dc dr dl dm do da]] [[ec er el em eo ea] i]]].
  unfold ensureAnnotations, executorAnnotations, driverAnnotations.
  destruct ea, da; simpl; repeat split; done.
Qed.

Lemma ensureAnnotations_resources a :
  getExecutorRequestResource (ensureAnnotations a)
  = getExecutorRequestResource a.
Proof.
  unfold getExecutorRequestResource.
  destruct (ensureAnnotations_fields a) as (_&_&_&_&->&_&_&->&_). done.
Qed.

Lemma ensureAnnotations_group a :
  groupAnnotation (executorAnnotations (ensureAnnotations a))
  = groupAnnotation (executorAnnotations a)
  ∧ groupAnnotation (driverAnnotations (ensureAnnotations a))
    = groupAnnotation (driverAnnotations a).
Proof.
  destruct (ensureAnnotations_fields a) as (_&_&_&_&_&->&->&_&_).
  unfold groupAnnotation. split.
  - by destruct (executorAnnotations a).
  - by destruct (driverAnnotations a).
Qed.

Lemma hasKey_ensureAnnotations a :
  hasKey GroupNameAnnotationKey (executorAnnotations (ensureAnnotations a))
  = hasKey GroupNameAnnotationKey (executorAnnotations a)
  ∧ hasKey GroupNameAnnotationKey (driverAnnotations (ensureAnnotations a))
    = hasKey GroupNameAnnotationKey (driverAnnotations a).
Proof.
  destruct (ensureAnnotations_fields a) as (_&_&_&_&_&->&->&_&_).
  unfold hasKey. split.
  - destruct (executorAnnotations a); simpl; [done|].
    rewrite lookup_empty. apply bool_decide_eq_false. by intros [? ?].
  - destruct (driverAnnotations a); simpl; [done|].
    rewrite lookup_empty. apply bool_decide_eq_false. by intros [? ?].
Qed.

Lemma ensureAnnotations_idemp a :
  ensureAnnotations (ensureAnnotations a) = ensureAnnotations a.
Proof.
  destruct a as [nm ns uid [mode [[dc dr dl dm do da]] [[ec er el em eo ea] i]]].
  unfold ensureAnnotations, executorAnnotations, driverAnnotations.
  by destruct ea, da.
Qed.

(** *** The callers, up to the call of Sync *)

Section AnySync.
Variable sync : nat → Z → gmap string Quantity → @M RP Cluster (option error).

Lemma DoBatchWith_eq app w a :
  heap w !! app = Some a →
  DoBatchSchedulingOnSubmissionWith sync app w
  = let newApp := length (heap w) in
    let w1 := pushApp (ensureAnnotations a) w in
    if bool_decide (Mode (Spec a) = ClientMode)
    then syncPodGroupInClientModeWith sync newApp w1
    else if bool_decide (Mode (Spec a) = ClusterMode)
    then syncPodGroupInClusterModeWith sync newApp w1
    else Normal (Some newApp, None) w1.
Proof.
  intros H. unfold DoBatchSchedulingOnSubmissionWith.
  unfold bind at 1. rewrite (DeepCopy_eq _ _ _ H).
  unfold bind at 1. rewrite (load_eq _ _ _ (lookup_pushApp_new a w)).
  unfold bind at 1.
  assert (∃ a1, (if executorAnnotations a is None
                 then store (length (heap w))
                        (withExecutorAnnotations (Some ∅) a)
                 else ret tt) (pushApp a w) = Normal tt (pushApp a1 w)
                ∧ a1 = (if executorAnnotations a is None
                        then withExecutorAnnotations (Some ∅) a else a))
    as (a1 & -> & Ha1).
  { destruct (executorAnnotations a); eexists; split; try done.
    apply store_pushed. }
  unfold bind at 1. rewrite (load_eq _ _ _ (lookup_pushApp_new a1 w)).
  unfold bind at 1.
  assert (∃ a2, (if driverAnnotations a1 is None
                 then store (length (heap w))
                        (withDriverAnnotations (Some ∅) a1)
                 else ret tt) (pushApp a1 w) = Normal tt (pushApp a2 w)
                ∧ a2 = (if driverAnnotations a1 is None
                        then withDriverAnnotations (Some ∅) a1 else a1))
    as (a2 & -> & Ha2).
  { destruct (driverAnnotations a1); eexists; split; try done.
    apply store_pushed. }
  unfold bind at 1. rewrite (load_eq _ _ _ (lookup_pushApp_new a2 w)).
  assert (a2 = ensureAnnotations a) as -> by (subst a2 a1; reflexivity).
  destruct (ensureAnnotations_fields a) as (_&_&_&->&_). cbn zeta.
  destruct (bool_decide (_ = ClientMode)); [done|].
  by destruct (bool_decide (_ = ClusterMode)).
Qed.

Lemma ClientModeWith_eq p w n :
  heap w !! p = Some n →
  syncPodGroupInClientModeWith sync p w
  = let newApp := length (heap w) in
    let w1 := pushApp n w in
    if hasKey GroupNameAnnotationKey (executorAnnotations n)
    then Normal (Some newApp, None) w1
    else
      match getExecutorRequestResource n with
      | None => Panicked nilDereference w1
      | Some minResource =>
          bind (sync newApp 1 minResource)
            (λ err,
               match err with
               | None =>
                   let* n := load newApp in
                   exec setExecutorAnnotation newApp GroupNameAnnotationKey
                          (getAppPodGroupName n) then
                   ret (Some newApp, None)
               | Some e => ret (None, Some e)
               end) w1
      end.
Proof.
  intros H. unfold syncPodGroupInClientModeWith.
  unfold bind at 1. rewrite (DeepCopy_eq _ _ _ H).
  unfold bind at 1. rewrite (load_eq _ _ _ (lookup_pushApp_new n w)).
  cbn zeta. destruct (hasKey _ _); simpl; [done|].
  unfold bind at 1. rewrite (load_eq _ _ _ (lookup_pushApp_old _ _ n _ H)).
  unfold bind at 1. by destruct (getExecutorRequestResource n).
Qed.

Lemma ClusterModeWith_eq p w a :
  heap w !! p = Some a →
  syncPodGroupInClusterModeWith sync p w
  = if hasKey GroupNameAnnotationKey (driverAnnotations a)
    then Normal (Some p, None) w
    else
      match getExecutorRequestResource a with
      | None => Panicked nilDereference w
      | Some executorResource =>
          bind (sync p 1 (sumResourceList
                            [executorResource; getDriverRequestResource a]))
            (λ err,
               match err with
               | None =>
                   let* a := load p in
                   exec setExecutorAnnotation p GroupNameAnnotationKey
                          (getAppPodGroupName a) then
                   let* a := load p in
                   exec setDriverAnnotation p GroupNameAnnotationKey
                          (getAppPodGroupName a) then
                   ret (Some p, None)
               | Some e => ret (None, Some e)
               end) w
      end.
Proof.
  intros H. unfold syncPodGroupInClusterModeWith.
  unfold bind at 1. rewrite (load_eq _ _ _ H).
  destruct (hasKey _ _); simpl; [done|].
  unfold bind at 1. by destruct (getExecutorRequestResource a).
Qed.

End AnySync.

Lemma alreadyAnnotated_ensureAnnotations a :
  alreadyAnnotated (ensureAnnotations a) = alreadyAnnotated a.
Proof.
  unfold alreadyAnnotated.
  destruct (hasKey_ensureAnnotations a) as [-> ->].
  by destruct (ensureAnnotations_fields a) as (_&_&_&->&_).
Qed.

Lemma client_is_not_cluster : ClientMode ≠ ClusterMode.
Proof. done. Qed.

(** *** Claims on the coordinator *)

(** C4.  With the executor instance count unset, computing the executor
    vector dereferences the nil pointer; in client and in cluster mode, when
    the annotation guard has not fired, [DoBatchSchedulingOnSubmission]
    panics on it, before any call to the cluster. *)
Theorem nil_instances_panic app w a :
  heap w !! app = Some a →
  Instances (Executor (Spec a)) = None →
  Mode (Spec a) = ClientMode ∨ Mode (Spec a) = ClusterMode →
  alreadyAnnotated a = false →
  getExecutorRequestResource a = None
  ∧ ∃ w', DoBatchSchedulingOnSubmission app w = Panicked nilDereference w'
          ∧ calls w' = calls w ∧ cluster w' = cluster w.
Proof.
  intros Ha Hnil Hmode Hguard.
  assert (getExecutorRequestResource a = None) as Hres.
  { unfold getExecutorRequestResource. by rewrite Hnil. }
  split; [done|].
  unfold DoBatchSchedulingOnSubmission. rewrite (DoBatchWith_eq _ _ _ _ Ha).
  cbn zeta. unfold alreadyAnnotated in Hguard.
  destruct (hasKey_ensureAnnotations a) as [He Hd].
  destruct Hmode as [Hm|Hm]; rewrite Hm in *.
  - rewrite bool_decide_eq_true_2 in * by done.
    rewrite (ClientModeWith_eq _ _ _ _ (lookup_pushApp_new _ w)). cbn zeta.
    rewrite He, Hguard, ensureAnnotations_resources, Hres. eauto.
  - rewrite (bool_decide_eq_false_2 (ClusterMode = ClientMode)) in * by done.
    rewrite bool_decide_eq_true_2 by done.
    rewrite (ClusterModeWith_eq _ _ _ _ (lookup_pushApp_new _ w)).
    rewrite Hd, Hguard, ensureAnnotations_resources, Hres. eauto.
Qed.

(** One call on a job the guard covers: no API call, the cluster as it was,
    a copy of the job returned with a nil error, every application that was
    on the heap still there. *)
Lemma guarded_call app w a :
  heap w !! app = Some a →
  Mode (Spec a) = ClientMode ∨ Mode (Spec a) = ClusterMode →
  alreadyAnnotated a = true →
  ∃ p1 w1,
    DoBatchSchedulingOnSubmission app w = Normal (Some p1, None) w1
    ∧ calls w1 = calls w ∧ cluster w1 = cluster w
    ∧ heap w1 !! p1 = Some (ensureAnnotations a)
    ∧ ∀ q x, heap w !! q = Some x → heap w1 !! q = Some x.
Proof.
  intros Ha Hmode Hguard.
  unfold DoBatchSchedulingOnSubmission. rewrite (DoBatchWith_eq _ _ _ _ Ha).
  cbn zeta. unfold alreadyAnnotated in Hguard.
  destruct (hasKey_ensureAnnotations a) as [He Hd].
  destruct Hmode as [Hm|Hm]; rewrite Hm in *.
  - rewrite bool_decide_eq_true_2 in * by done.
    rewrite (ClientModeWith_eq _ _ _ _ (lookup_pushApp_new _ w)). cbn zeta.
    rewrite He, Hguard. do 2 eexists. split; [reflexivity|].
    repeat split.
    + apply (lookup_pushApp_new _ (pushApp _ w)).
    + intros q x Hq. by do 2 apply lookup_pushApp_old.
  - rewrite (bool_decide_eq_false_2 (ClusterMode = ClientMode)) in * by done.
    rewrite bool_decide_eq_true_2 by done.
    rewrite (ClusterModeWith_eq _ _ _ _ (lookup_pushApp_new _ w)).
    rewrite Hd, Hguard. do 2 eexists. split; [reflexivity|].
    repeat split.
    + apply lookup_pushApp_new.
    + intros q x Hq. by apply lookup_pushApp_old.
Qed.

(** C5.  On a job whose executor annotation (client mode) or driver
    annotation (cluster mode) already names a group, a first call and then a
    second one, on the same job or on the job the first call returned, issue
    no API call, leave the cluster as it was, and each return the job (a
    copy, nil annotation maps made empty) with a nil error. *)
Theorem annotation_guard_idempotent app w a :
  heap w !! app = Some a →
  Mode (Spec a) = ClientMode ∨ Mode (Spec a) = ClusterMode →
  alreadyAnnotated a = true →
  ∃ p1 w1,
    DoBatchSchedulingOnSubmission app w = Normal (Some p1, None) w1
    ∧ calls w1 = calls w ∧ cluster w1 = cluster w
    ∧ heap w1 !! p1 = Some (ensureAnnotations a)
    ∧ ∀ q, q = app ∨ q = p1 →
        ∃ p2 w2,
          DoBatchSchedulingOnSubmission q w1 = Normal (Some p2, None) w2
          ∧ calls w2 = calls w ∧ cluster w2 = cluster w
          ∧ heap w2 !! p2 = Some (ensureAnnotations a).
Proof.
  intros Ha Hmode Hguard.
  destruct (guarded_call _ _ _ Ha Hmode Hguard)
    as (p1 & w1 & Hrun & Hcalls & Hcluster & Hp1 & Hkeep).
  exists p1, w1. repeat split; try done.
  intros q [-> | ->].
  - destruct (guarded_call _ _ _ (Hkeep _ _ Ha) Hmode Hguard)
      as (p2 & w2 & Hrun2 & Hcalls2 & Hcluster2 & Hp2 & _).
    exists p2, w2. repeat split; congruence.
  - assert (Mode (Spec (ensureAnnotations a)) = ClientMode
            ∨ Mode (Spec (ensureAnnotations a)) = ClusterMode) as Hmode'.
    { by destruct (ensureAnnotations_fields a) as (_&_&_&->&_). }
    assert (alreadyAnnotated (ensureAnnotations a) = true) as Hguard'.
    { by rewrite alreadyAnnotated_ensureAnnotations. }
    destruct (guarded_call _ _ _ Hp1 Hmode' Hguard')
      as (p2 & w2 & Hrun2 & Hcalls2 & Hcluster2 & Hp2 & _).
    exists p2, w2. rewrite ensureAnnotations_idemp in Hp2.
    repeat split; congruence.
Qed.

(** *** Stamping *)

Lemma setExecutorAnnotation_last w (h : list SparkApplication) a p m value :
  heap w = (h ++ [a])%list → p = length h →
  executorAnnotations a = Some m →
  setExecutorAnnotation p GroupNameAnnotationKey value w
  = Normal tt
      {| heap := (h ++ [withExecutorAnnotations
                          (Some (<[GroupNameAnnotationKey := value]> m)) a])%list;
         cluster := cluster w; calls := calls w |}.
Proof.
  intros Hh -> Hm. unfold setExecutorAnnotation, bind, load.
  rewrite Hh, list_lookup_middle by done. rewrite Hm. simpl.
  unfold store. rewrite Hh. do 2 f_equal.
  rewrite insert_app_r_alt by lia. by rewrite Nat.sub_diag.
Qed.

Lemma setDriverAnnotation_last w (h : list SparkApplication) a p m value :
  heap w = (h ++ [a])%list → p = length h →
  driverAnnotations a = Some m →
  setDriverAnnotation p GroupNameAnnotationKey value w
  = Normal tt
      {| heap := (h ++ [withDriverAnnotations
                          (Some (<[GroupNameAnnotationKey := value]> m)) a])%list;
         cluster := cluster w; calls := calls w |}.
Proof.
  intros Hh -> Hm. unfold setDriverAnnotation, bind, load.
  rewrite Hh, list_lookup_middle by done. rewrite Hm. simpl.
  unfold store. rewrite Hh. do 2 f_equal.
  rewrite insert_app_r_alt by lia. by rewrite Nat.sub_diag.
Qed.

Lemma ensureAnnotations_group_identity a size res :
  getAppPodGroupName (ensureAnnotations a) = getAppPodGroupName a
  ∧ newPodGroup (ensureAnnotations a) (getAppPodGroupName a) size res
    = newPodGroup a (getAppPodGroupName a) size res.
Proof.
  destruct (ensureAnnotations_fields a) as (Hname & Hns & Huid & _).
  unfold getAppPodGroupName, newPodGroup, NewControllerRef.
  by rewrite Hname, Hns, Huid.
Qed.

(** Cluster mode past the guard: the call is Sync on the copy, with size 1
    and the total vector, followed by the stamping or the error return. *)
Lemma DoBatchWith_cluster_mode
    (sync : nat → Z → gmap string Quantity → @M RP Cluster (option error))
    app w a (instances : Z) :
  heap w !! app = Some a →
  Mode (Spec a) = ClusterMode →
  hasKey GroupNameAnnotationKey (driverAnnotations a) = false →
  Instances (Executor (Spec a)) = Some instances →
  DoBatchSchedulingOnSubmissionWith sync app w
  = bind (sync (length (heap w)) 1
            (sumResourceList
               [sumResourceList
                  (∅ :: replicate (Z.to_nat instances) (executorMinResource a));
                getDriverRequestResource a]))
      (λ err,
         match err with
         | None =>
             let* a := load (length (heap w)) in
             exec setExecutorAnnotation (length (heap w))
                    GroupNameAnnotationKey (getAppPodGroupName a) then
             let* a := load (length (heap w)) in
             exec setDriverAnnotation (length (heap w))
                    GroupNameAnnotationKey (getAppPodGroupName a) then
             ret (Some (length (heap w)), None)
         | Some e => ret (None, Some e)
         end) (pushApp (ensureAnnotations a) w).
Proof.
  intros Ha Hm Hguard Hn.
  rewrite (DoBatchWith_eq _ _ _ _ Ha). cbn zeta. rewrite Hm.
  rewrite (bool_decide_eq_false_2 (ClusterMode = ClientMode)) by done.
  rewrite bool_decide_eq_true_2 by done.
  rewrite (ClusterModeWith_eq _ _ _ _ (lookup_pushApp_new _ w)).
  destruct (hasKey_ensureAnnotations a) as [_ ->]. rewrite Hguard.
  rewrite ensureAnnotations_resources.
  unfold getExecutorRequestResource at 1. rewrite Hn.
  by destruct (ensureAnnotations_fields a) as (_&_&_&_&_&_&_&_&->).
Qed.

(** C6.  In cluster mode, for a job without a driver group annotation and
    with an instance count, the Sync step is called with minMember [1],
    whatever the count, and with the sum of the aggregate executor vector and
    the driver vector.  When it returns an error the call returns that error
    and no job; when it succeeds, leaving the heap alone, the job returned
    carries the group name on both the driver and the executor annotation.
    With the scheduler's own [syncPodGroup], when the fetch finds no group,
    the group sent to the cluster has that size and that vector. *)
Theorem cluster_mode_sizing
    (sync : nat → Z → gmap string Quantity → @M RP Cluster (option error))
    app w a (instances : Z) :
  heap w !! app = Some a →
  Mode (Spec a) = ClusterMode →
  hasKey GroupNameAnnotationKey (driverAnnotations a) = false →
  Instances (Executor (Spec a)) = Some instances →
  let executorResource :=
    sumResourceList
      (∅ :: replicate (Z.to_nat instances) (executorMinResource a)) in
  let totalResource :=
    sumResourceList [executorResource; getDriverRequestResource a] in
  let newApp := length (heap w) in
  let w1 := pushApp (ensureAnnotations a) w in
  getExecutorRequestResource a = Some executorResource
  ∧ (∀ e w2,
       sync newApp 1 totalResource w1 = Normal (Some e) w2 →
       DoBatchSchedulingOnSubmissionWith sync app w
       = Normal (None, Some e) w2)
  ∧ (∀ w2,
       sync newApp 1 totalResource w1 = Normal None w2 →
       heap w2 = heap w1 →
       ∃ job,
         DoBatchSchedulingOnSubmissionWith sync app w
         = Normal (Some newApp, None)
             {| heap := (heap w ++ [job])%list; cluster := cluster w2;
                calls := calls w2 |}
         ∧ groupAnnotation (driverAnnotations job)
           = Some (getAppPodGroupName a)
         ∧ groupAnnotation (executorAnnotations job)
           = Some (getAppPodGroupName a))
  ∧ (∀ errGet c1,
       pgGet (Namespace a) (getAppPodGroupName a) (cluster w)
       = (inr errGet, c1) →
       IsNotFound errGet = true →
       calls (finalWorld (DoBatchSchedulingOnSubmission app w))
       = (calls w
          ++ [CallGet (Namespace a) (getAppPodGroupName a);
              CallCreate (Namespace a)
                (newPodGroup a (getAppPodGroupName a) 1 totalResource)])%list).
Proof.
  intros Ha Hm Hguard Hn. cbn zeta.
  split; [unfold getExecutorRequestResource; by rewrite Hn|].
  unfold DoBatchSchedulingOnSubmission.
  rewrite !(DoBatchWith_cluster_mode _ _ _ _ _ Ha Hm Hguard Hn).
  destruct (ensureAnnotations_fields a)
    as (Hname & Hns & _ & _ & _ & Hea & Hda & _ & _).
  split; [|split].
  - intros e w2 Hsync. unfold bind. by rewrite Hsync.
  - intros w2 Hsync Hheap. unfold bind at 1. rewrite Hsync.
    simpl in Hheap.
    unfold bind at 1.
    rewrite (load_eq (length (heap w)) w2 (ensureAnnotations a))
      by (by rewrite Hheap, list_lookup_middle).
    unfold bind at 1.
    rewrite (setExecutorAnnotation_last _ _ _ _ _ _ Hheap eq_refl Hea).
    unfold bind at 1. unfold load at 1. simpl.
    rewrite list_lookup_middle by done.
    unfold bind at 1.
    erewrite (setDriverAnnotation_last _ (heap w)); [|reflexivity|reflexivity|].
    2:{ unfold driverAnnotations, withExecutorAnnotations. simpl. apply Hda. }
    simpl. unfold ret. eexists. split; [reflexivity|].
    unfold groupAnnotation, driverAnnotations, executorAnnotations,
      getAppPodGroupName. simpl.
    rewrite !lookup_insert_eq, Hname. done.
  - intros errGet c1 Hget Hnf. unfold bind at 1.
    rewrite (syncPodGroup_eq _ _ _ _ _ (lookup_pushApp_new _ w)). cbn zeta.
    destruct (ensureAnnotations_group_identity a 1
                (sumResourceList
                   [sumResourceList
                      (∅ :: replicate (Z.to_nat instances)
                              (executorMinResource a));
                    getDriverRequestResource a])) as [-> ->].
    rewrite Hns. simpl. rewrite Hget, Hnf. simpl.
    unfold getAppPodGroupName at 1. rewrite Hname, Hns.
    by rewrite <- app_assoc.
Qed.

Lemma sameGroupAnnotations_ensure a :
  sameGroupAnnotations a (ensureAnnotations a).
Proof. apply ensureAnnotations_group. Qed.

Lemma syncPodGroup_keeps_heap p size res w a r w' :
  heap w !! p = Some a →
  syncPodGroup p size res w = Normal r w' →
  heap w' = heap w.
Proof.
  intros H Hrun.
  destruct (syncPodGroup_always_errors p size res w a H) as (e & w'' & Hs & Hh).
  congruence.
Qed.

(** C9.  In client and in cluster mode, for a job the guard does not cover:
    when Sync returns an error, [DoBatchSchedulingOnSubmission] returns that
    error and no job; the job submitted is on the heap as it was, and the
    copies made on the way carry no group annotation the job did not have. *)
Theorem sync_failure_leaves_job_unannotated app w a (instances : Z) :
  heap w !! app = Some a →
  Instances (Executor (Spec a)) = Some instances →
  alreadyAnnotated a = false →
  let a1 := ensureAnnotations a in
  let executorResource :=
    sumResourceList
      (∅ :: replicate (Z.to_nat instances) (executorMinResource a)) in
  let totalResource :=
    sumResourceList [executorResource; getDriverRequestResource a] in
  (Mode (Spec a) = ClientMode →
   ∀ e w',
     syncPodGroup (S (length (heap w))) 1 executorResource
       (pushApp a1 (pushApp a1 w)) = Normal (Some e) w' →
     DoBatchSchedulingOnSubmission app w = Normal (None, Some e) w'
     ∧ heap w' !! app = Some a
     ∧ Forall (sameGroupAnnotations a) (drop (length (heap w)) (heap w')))
  ∧ (Mode (Spec a) = ClusterMode →
     ∀ e w',
       syncPodGroup (length (heap w)) 1 totalResource (pushApp a1 w)
       = Normal (Some e) w' →
       DoBatchSchedulingOnSubmission app w = Normal (None, Some e) w'
       ∧ heap w' !! app = Some a
       ∧ Forall (sameGroupAnnotations a) (drop (length (heap w)) (heap w'))).
Proof.
  intros Ha Hn Hguard. cbn zeta.
  assert (getExecutorRequestResource a
          = Some (sumResourceList
                    (∅ :: replicate (Z.to_nat instances)
                            (executorMinResource a)))) as Hres.
  { unfold getExecutorRequestResource. by rewrite Hn. }
  unfold DoBatchSchedulingOnSubmission. rewrite (DoBatchWith_eq _ _ _ _ Ha).
  cbn zeta. unfold alreadyAnnotated in Hguard.
  destruct (hasKey_ensureAnnotations a) as [He Hd].
  pose proof (sameGroupAnnotations_ensure a) as Hsame.
  split; intros Hm e w' Hsync; rewrite Hm in *.
  - rewrite bool_decide_eq_true_2 in * by done.
    rewrite (ClientModeWith_eq _ _ _ _ (lookup_pushApp_new _ w)). cbn zeta.
    rewrite He, Hguard, ensureAnnotations_resources, Hres.
    rewrite length_pushApp. unfold bind. rewrite Hsync.
    split; [done|].
    assert (heap w' = heap (pushApp (ensureAnnotations a)
                              (pushApp (ensureAnnotations a) w))) as ->.
    { eapply syncPodGroup_keeps_heap; [|exact Hsync].
      rewrite <- (length_pushApp (ensureAnnotations a) w).
      apply lookup_pushApp_new. }
    split.
    + by do 2 apply lookup_pushApp_old.
    + simpl. rewrite <- app_assoc, drop_app_length. simpl.
      repeat (apply List.Forall_cons; [exact Hsame|]). apply List.Forall_nil.
  - rewrite (bool_decide_eq_false_2 (ClusterMode = ClientMode)) in * by done.
    rewrite bool_decide_eq_true_2 by done.
    rewrite (ClusterModeWith_eq _ _ _ _ (lookup_pushApp_new _ w)).
    rewrite Hd, Hguard, ensureAnnotations_resources, Hres.
    destruct (ensureAnnotations_fields a) as (_&_&_&_&_&_&_&_&->).
    unfold bind. rewrite Hsync.
    split; [done|].
    assert (heap w' = heap (pushApp (ensureAnnotations a) w)) as ->.
    { eapply syncPodGroup_keeps_heap; [|exact Hsync].
      apply lookup_pushApp_new. }
    split.
    + by apply lookup_pushApp_old.
    + simpl. rewrite drop_app_length.
      repeat (apply List.Forall_cons; [exact Hsame|]). apply List.Forall_nil.
Qed.

(** C3 (as amended).  When the fetch finds nothing and the create then fails
    because the group already exists, Sync makes no further call, neither an
    update nor a second attempt: the cluster is left as the failed create
    left it, and Sync returns an error. *)
Theorem create_conflict_ends_sync p size res w a errGet c1 errCreate c2 :
  heap w !! p = Some a →
  pgGet (Namespace a) (getAppPodGroupName a) (cluster w) = (inr errGet, c1) →
  IsNotFound errGet = true →
  pgCreate (Namespace a)
    (newPodGroup a (getAppPodGroupName a) size res) c1
  = (Some errCreate, c2) →
  IsAlreadyExists errCreate = true →
  ∃ e w',
    syncPodGroup p size res w = Normal (Some e) w'
    ∧ cluster w' = c2
    ∧ calls w'
      = (calls w
         ++ [CallGet (Namespace a) (getAppPodGroupName a);
             CallCreate (Namespace a)
               (newPodGroup a (getAppPodGroupName a) size res)])%list.
Proof.
  intros Ha Hget Hnf Hcreate _.
  rewrite (syncPodGroup_eq _ _ _ _ _ Ha). cbn zeta.
  rewrite Hget, Hnf. do 2 eexists. split; [reflexivity|]. simpl.
  rewrite Hcreate. split; [done|]. by rewrite <- app_assoc.
Qed.

End CoordinatorProperties.

(** ** The webhook's owner reference *)

Section WebhookProperties.
Context `{RP : ResourcePkg}.
Import Webhook.

(** C10.  Applying the webhook's patch to any pod succeeds and leaves the
    pod's owner references followed by one reference to the job: one more
    than before, the earlier ones kept in place; so none gives one, and one
    gives two with the first preserved. *)
Theorem owner_reference_appended (pod : Pod) (app : SparkApplication) :
  ∃ modifiedPod,
    getModifiedPod pod app = Some modifiedPod
    ∧ podOwnerReferences modifiedPod
      = (podOwnerReferences pod ++ [GetOwnerReference app])%list
    ∧ length (podOwnerReferences modifiedPod)
      = S (length (podOwnerReferences pod))
    ∧ take (length (podOwnerReferences pod)) (podOwnerReferences modifiedPod)
      = podOwnerReferences pod.
Proof.
  unfold getModifiedPod, patchSparkPod, addOwnerReference.
  destruct pod as [name [|r references]]; simpl.
  - eexists. split; [reflexivity|]. simpl. done.
  - eexists. split; [reflexivity|]. simpl. split; [done|].
    rewrite length_app. simpl. split; [f_equal; lia|].
    f_equal. by rewrite take_app_length.
Qed.

End WebhookProperties.

(** ** More on the aggregator *)

Section AggregatorFurther.
Context `{RP : ResourcePkg}.
Implicit Types (m total : gmap string Quantity) (app : SparkApplication).

Lemma is_Some_addOpt (t q : option Quantity) :
  is_Some (addOpt t q) ↔ is_Some t ∨ is_Some q.
Proof.
  destruct t, q; simpl; split; intros H; eauto;
    destruct H as [[? H]|[? H]]; by inversion H.
Qed.

Lemma is_Some_foldl_addOpt (l : list (gmap string Quantity)) k acc :
  is_Some (foldl (λ t v, addOpt t (v !! k)) acc l)
  ↔ is_Some acc ∨ ∃ v, v ∈ l ∧ is_Some (v !! k).
Proof.
  revert acc. induction l as [|v l IH]; intros acc; simpl.
  - split; [by left|]. intros [H|(v & Hv & _)]; [done|].
    by apply elem_of_nil in Hv.
  - rewrite IH, is_Some_addOpt. split.
    + intros [[H|H]|(v' & Hv' & H)]; eauto.
      * right. exists v. split; [left|done].
      * right. exists v'. split; [by right|done].
    + intros [H|(v' & Hv' & H)]; [by left; left|].
      apply elem_of_cons in Hv' as [->|Hv']; [by left; right|].
      right. eauto.
Qed.

(** X1.  A resource is in the sum exactly when one of the vectors has it;
    in particular the sum of no vector, and of empty vectors only, is
    empty. *)
Theorem sum_has_exactly_the_requested_resources
    (l : list (gmap string Quantity)) (name : string) :
  is_Some (sumResourceList l !! name)
  ↔ ∃ v, v ∈ l ∧ is_Some (v !! name).
Proof.
  rewrite lookup_sumResourceList, is_Some_foldl_addOpt. split.
  - intros [[? H]|H]; [done|exact H].
  - by right.
Qed.

(** X2.  The sum of two vectors is their union, a resource both have being
    added up with the first vector's quantity as the receiver; this is the
    total of cluster mode, executor aggregate first. *)
Theorem sum_of_two_is_union_with (a b : gmap string Quantity) :
  sumResourceList [a; b] = union_with (λ x y, Some (Add x y)) a b.
Proof.
  apply map_eq. intros k.
  rewrite lookup_sumResourceList, lookup_union_with. simpl.
  by destruct (a !! k), (b !! k).
Qed.

Lemma sumResourceList_singleton m : sumResourceList [m] = m.
Proof.
  apply map_eq. intros k. rewrite lookup_sumResourceList. simpl.
  by destruct (m !! k).
Qed.

(** X3.  With exactly one instance the aggregate executor vector is the
    vector of that one executor, unchanged. *)
Theorem single_instance_aggregate app :
  Instances (Executor (Spec app)) = Some 1%Z →
  getExecutorRequestResource app = Some (executorMinResource app).
Proof.
  intros H. unfold getExecutorRequestResource. rewrite H. simpl.
  by rewrite sumResourceList_skip_empty, sumResourceList_singleton.
Qed.

(** X4.  A negative instance count is not an error and not a panic: the loop
    does not run, and the aggregate is the empty vector. *)
Theorem negative_instances_give_nothing app (n : Z) :
  Instances (Executor (Spec app)) = Some n →
  (n < 0)%Z →
  getExecutorRequestResource app = Some ∅.
Proof.
  intros H Hn. unfold getExecutorRequestResource. rewrite H.
  replace (Z.to_nat n) with O by lia. simpl.
  by rewrite sumResourceList_singleton.
Qed.

Lemma lookup_rangeInto total (entries : list (string * Quantity)) k :
  NoDup entries.*1 →
  rangeInto total entries !! k
  = addOpt (total !! k) ((list_to_map entries : gmap string Quantity) !! k).
Proof.
  unfold rangeInto. revert total.
  induction entries as [|[i x] entries IH]; intros total Hnd; simpl.
  - by rewrite lookup_empty.
  - apply NoDup_cons in Hnd as [Hi Hnd]. rewrite IH by done.
    rewrite lookup_addEntry, lookup_insert. case_decide as Hk.
    + subst k. rewrite (not_elem_of_list_to_map_1 entries i) by done. done.
    + done.
Qed.

(** X5.  The order in which the entries of a vector are visited does not
    matter: running the loop body over the entries in any order adds the
    vector to the running total in the same way. *)
Theorem range_order_is_irrelevant total m
    (entries : list (string * Quantity)) :
  entries ≡ₚ map_to_list m →
  rangeInto total entries = map_fold addEntry total m.
Proof.
  intros Hperm.
  assert (NoDup entries.*1) as Hnd.
  { rewrite Hperm. apply NoDup_fst_map_to_list. }
  apply map_eq. intros k.
  rewrite lookup_rangeInto, lookup_map_fold_addEntry by done.
  by rewrite (list_to_map_proper _ _ Hnd Hperm), list_to_map_to_list.
Qed.

Section Algebra.
Hypothesis Add_assoc : ∀ x y z : Quantity, Add (Add x y) z = Add x (Add y z).

Lemma addOpt_assoc (a b c : option Quantity) :
  addOpt (addOpt a b) c = addOpt a (addOpt b c).
Proof. destruct a, b, c; simpl; by rewrite ?Add_assoc. Qed.

Lemma foldl_addOpt_acc (l : list (gmap string Quantity)) k acc :
  foldl (λ t v, addOpt t (v !! k)) acc l
  = addOpt acc (foldl (λ t v, addOpt t (v !! k)) None l).
Proof.
  revert acc. induction l as [|v l IH]; intros acc; simpl.
  - done.
  - rewrite IH, (IH (addOpt None (v !! k))), <- addOpt_assoc.
    f_equal. by destruct acc, (v !! k).
Qed.

Lemma sumResourceList_app_assoc (l1 l2 : list (gmap string Quantity)) :
  sumResourceList (l1 ++ l2)
  = sumResourceList [sumResourceList l1; sumResourceList l2].
Proof.
  apply map_eq. intros k. rewrite !lookup_sumResourceList, foldl_app. simpl.
  rewrite !lookup_sumResourceList, foldl_addOpt_acc.
  by destruct (foldl _ None l1).
Qed.

Hypothesis Add_comm : ∀ x y : Quantity, Add x y = Add y x.

Lemma addOpt_swap (a b c : option Quantity) :
  addOpt (addOpt a b) c = addOpt (addOpt a c) b.
Proof.
  destruct a, b, c; simpl; try done.
  - by rewrite !Add_assoc, (Add_comm _ q1).
  - by rewrite Add_comm.
Qed.

Lemma sumResourceList_perm (l1 l2 : list (gmap string Quantity)) :
  l1 ≡ₚ l2 → sumResourceList l1 = sumResourceList l2.
Proof.
  intros Hperm. apply map_eq. intros k. rewrite !lookup_sumResourceList.
  generalize (@None Quantity). induction Hperm as [|v l1 l2 _ IH| |];
    intros acc; simpl.
  - done.
  - apply IH.
  - by rewrite addOpt_swap.
  - etrans; eauto.
Qed.

End Algebra.

(** X6.  When quantity addition is associative, summing a list of vectors in
    two parts and then summing the two results gives the sum of the whole
    list. *)
Theorem sum_splits_over_append (l1 l2 : list (gmap string Quantity)) :
  (∀ x y z : Quantity, Add (Add x y) z = Add x (Add y z)) →
  sumResourceList (l1 ++ l2)
  = sumResourceList [sumResourceList l1; sumResourceList l2].
Proof. intros H. by apply sumResourceList_app_assoc. Qed.

(** X7.  When quantity addition is associative and commutative, the sum does
    not depend on the order of the vectors. *)
Theorem sum_ignores_vector_order (l1 l2 : list (gmap string Quantity)) :
  (∀ x y z : Quantity, Add (Add x y) z = Add x (Add y z)) →
  (∀ x y : Quantity, Add x y = Add y x) →
  l1 ≡ₚ l2 →
  sumResourceList l1 = sumResourceList l2.
Proof. intros Ha Hc. by apply sumResourceList_perm. Qed.

Local Ltac solve_lookup :=
  repeat (rewrite ?lookup_addOverhead, ?lookup_setParsed,
            ?lookup_setParsedIfAbsent, ?lookup_empty; simpl);
  repeat (case_decide; simplify_eq/=; try done);
  repeat (case_match; simplify_eq/=; try done); try done.

Lemma roleVector_other_keys (role : Role) app (name : string) :
  name ≠ ResourceCPU → name ≠ ResourceMemory →
  roleVector role app !! name = None.
Proof.
  intros Hc Hm.
  destruct role; unfold roleVector, getDriverRequestResource,
    executorMinResource, onSet; cbn zeta.
  - destruct (DriverPod (Driver (Spec app)))
      as [cores request limit memory overhead ann]; simpl.
    destruct overhead, memory, limit, cores; simpl; solve_lookup.
  - destruct (ExecutorPod (Executor (Spec app)))
      as [cores request limit memory overhead ann]; simpl.
    destruct overhead, memory, limit, cores, request; simpl; solve_lookup.
Qed.

(** X8.  The request vectors hold CPU and memory and nothing else: the
    driver's vector, the vector of one executor, and the aggregate executor
    vector for any instance count. *)
Theorem vectors_hold_cpu_and_memory_only app (name : string) :
  name ≠ ResourceCPU → name ≠ ResourceMemory →
  getDriverRequestResource app !! name = None
  ∧ executorMinResource app !! name = None
  ∧ ∀ aggregate,
      getExecutorRequestResource app = Some aggregate →
      aggregate !! name = None.
Proof.
  intros Hc Hm. split; [|split].
  - apply (roleVector_other_keys DriverRole); done.
  - apply (roleVector_other_keys ExecutorRole); done.
  - intros aggregate. unfold getExecutorRequestResource.
    destruct (Instances _) as [n|]; [|done]. intros [= <-]. simpl.
    rewrite sumResourceList_skip_empty, lookup_sum_replicate.
    destruct (Z.to_nat n); [done|].
    pose proof (roleVector_other_keys ExecutorRole app name Hc Hm) as H.
    simpl in H. by rewrite H.
Qed.

Lemma firstParsed_unusable (candidates : list (option string)) :
  Forall unusable candidates → firstParsed candidates = None.
Proof.
  induction 1 as [|c rest Hc _ IH]; simpl; [done|].
  unfold unusable in Hc. by rewrite Hc.
Qed.

(** X9.  Fail-open: a role none of whose CPU and memory fields is usable
    (each nil, or a string that does not parse) has the empty vector, and
    the aggregate executor vector is then empty for any instance count; no
    error comes out of a string that does not parse. *)
Theorem unusable_fields_give_empty_vector (role : Role) app :
  let pod := rolePod role app in
  (role = ExecutorRole → unusable (CoreRequest pod)) →
  unusable (Sprintf_f <$> Cores pod) →
  unusable (CoreLimit pod) →
  unusable (Memory pod) →
  roleVector role app = ∅
  ∧ (role = ExecutorRole →
     ∀ n, Instances (Executor (Spec app)) = Some n →
          getExecutorRequestResource app = Some ∅).
Proof.
  cbn zeta. intros Hrequest Hcores Hlimit Hmemory.
  assert (roleVector role app = ∅) as Hempty.
  { apply map_eq. intros k. rewrite lookup_empty.
    destruct (decide (k = ResourceCPU)) as [->|Hc].
    { destruct role; simpl.
      - rewrite getDriverRequestResource_cpu. cbn zeta.
        apply firstParsed_unusable. by repeat constructor.
      - rewrite executorMinResource_cpu. cbn zeta.
        apply firstParsed_unusable. repeat constructor; auto. }
    destruct (decide (k = ResourceMemory)) as [->|Hm].
    { assert (roleVector role app !! ResourceMemory
              = memoryEntry (rolePod role app)) as ->.
      { destruct role; simpl;
          [apply getDriverRequestResource_memory
          |apply executorMinResource_memory]. }
      unfold memoryEntry. unfold unusable in Hmemory. by rewrite Hmemory. }
    by apply roleVector_other_keys. }
  split; [done|]. intros -> n Hn. simpl in Hempty.
  unfold getExecutorRequestResource. rewrite Hn, Hempty. simpl.
  rewrite sumResourceList_skip_empty. f_equal.
  apply map_eq. intros k. rewrite lookup_sum_replicate.
  destruct (Z.to_nat n); by rewrite !lookup_empty.
Qed.

(** X10.  Fail-open on memory, field by field: an overhead that is set but
    does not parse is ignored and the entry is the memory alone; a memory
    that is set but does not parse leaves no entry, even with an overhead
    that parses. *)
Theorem memory_parse_failures (role : Role) app :
  let pod := rolePod role app in
  let vector := roleVector role app in
  (∀ (memory : string) qm,
     Memory pod = Some memory → ParseQuantity memory = Some qm →
     unusable (MemoryOverhead pod) →
     vector !! ResourceMemory = Some qm)
  ∧ (unusable (Memory pod) → vector !! ResourceMemory = None).
Proof.
  cbn zeta.
  assert (roleVector role app !! ResourceMemory
          = memoryEntry (rolePod role app)) as ->.
  { destruct role; simpl;
      [apply getDriverRequestResource_memory
      |apply executorMinResource_memory]. }
  unfold memoryEntry, unusable. split.
  - intros memory qm -> Hm Ho. simpl. by rewrite Hm, Ho.
  - by intros ->.
Qed.

End AggregatorFurther.

(** ** More on the coordinator *)

Section CoordinatorFurther.
Context `{RP : ResourcePkg} {Cluster : Type} {PG : PodGroupInterface Cluster}.
Implicit Types (w : @World RP Cluster) (a : SparkApplication) (p app : nat).

(** X11.  An error of the fetch other than not-found ends Sync at once: it
    is returned as it is, unwrapped, and no create or update is issued. *)
Theorem fetch_error_returned_verbatim p size res w a e c1 :
  heap w !! p = Some a →
  pgGet (Namespace a) (getAppPodGroupName a) (cluster w) = (inr e, c1) →
  IsNotFound e = false →
  syncPodGroup p size res w = Normal (Some e) (afterGet a c1 w).
Proof.
  intros Ha Hget Hnf. rewrite (syncPodGroup_eq _ _ _ _ _ Ha). cbn zeta.
  by rewrite Hget, Hnf.
Qed.

(** X12.  When the fetch finds the group with another minMember, Sync issues
    one update and nothing else.  The update carries the group as fetched
    with the minMember replaced: its minResources, owner references, name
    and namespace are the fetched ones, and the vector handed to Sync plays
    no part in the run. *)
Theorem existing_group_only_resized p size res w a pg c1 :
  heap w !! p = Some a →
  pgGet (Namespace a) (getAppPodGroupName a) (cluster w) = (inl pg, c1) →
  MinMember (pgSpec pg) ≠ size →
  let pg' := withMinMember size pg in
  (∃ e w',
     syncPodGroup p size res w = Normal (Some e) w'
     ∧ calls w'
       = (calls w ++ [CallGet (Namespace a) (getAppPodGroupName a);
                      CallUpdate (Namespace a) pg'])%list
     ∧ cluster w' = (pgUpdate (Namespace a) pg' c1).2)
  ∧ MinMember (pgSpec pg') = size
  ∧ MinResources (pgSpec pg') = MinResources (pgSpec pg)
  ∧ pgOwnerReferences pg' = pgOwnerReferences pg
  ∧ (pgNamespace pg', pgName pg') = (pgNamespace pg, pgName pg)
  ∧ ∀ res', syncPodGroup p size res' w = syncPodGroup p size res w.
Proof.
  intros Ha Hget Hne. cbn zeta.
  assert ((MinMember (pgSpec pg) =? size)%Z = false) as Hb
    by by apply Z.eqb_neq.
  repeat split.
  - rewrite (syncPodGroup_eq _ _ _ _ _ Ha). cbn zeta. rewrite Hget, Hb.
    do 2 eexists. split; [reflexivity|]. simpl.
    split; [by rewrite <- app_assoc|done].
  - intros res'. rewrite !(syncPodGroup_eq _ _ _ _ _ Ha). cbn zeta.
    by rewrite Hget, Hb.
Qed.

(** X13.  When the fetch finds nothing, Sync issues one create and nothing
    else.  The group created is named after the job in the job's namespace,
    has the size and the vector handed to Sync, and has a single owner
    reference: the job, by name and UID, as its controller. *)
Theorem missing_group_created_for_job p size res w a e c1 :
  heap w !! p = Some a →
  pgGet (Namespace a) (getAppPodGroupName a) (cluster w) = (inr e, c1) →
  IsNotFound e = true →
  ∃ podGroup owner err w',
    syncPodGroup p size res w = Normal (Some err) w'
    ∧ calls w'
      = (calls w ++ [CallGet (Namespace a) (getAppPodGroupName a);
                     CallCreate (Namespace a) podGroup])%list
    ∧ cluster w' = (pgCreate (Namespace a) podGroup c1).2
    ∧ pgName podGroup = "spark-" ++ Name a ++ "-pg"
    ∧ pgNamespace podGroup = Namespace a
    ∧ pgSpec podGroup
      = {| MinMember := size; MinResources := Some res |}
    ∧ pgOwnerReferences podGroup = [owner]
    ∧ orName owner = Name a ∧ orUID owner = UID a
    ∧ orKind owner = "SparkApplication"
    ∧ orController owner = Some true.
Proof.
  intros Ha Hget Hnf.
  exists (newPodGroup a (getAppPodGroupName a) size res),
    (NewControllerRef a).
  rewrite (syncPodGroup_eq _ _ _ _ _ Ha). cbn zeta. rewrite Hget, Hnf.
  do 2 eexists. split; [reflexivity|]. simpl.
  repeat split. by rewrite <- app_assoc.
Qed.

(** X14.  Every run of Sync on a job that is on the heap returns, with a
    non-nil error, leaves the heap as it was, and adds to the trace one
    fetch of the job's group followed by at most one call, a write. *)
Theorem sync_trace_shape p size res w a :
  heap w !! p = Some a →
  ∃ e w' rest,
    syncPodGroup p size res w = Normal (Some e) w'
    ∧ heap w' = heap w
    ∧ calls w'
      = (calls w
         ++ CallGet (Namespace a) (getAppPodGroupName a) :: rest)%list
    ∧ (length rest ≤ 1)%nat
    ∧ Forall (λ call, isWrite call = true) rest.
Proof.
  intros Ha. rewrite (syncPodGroup_eq _ _ _ _ _ Ha). cbn zeta.
  destruct (pgGet _ _ _) as [[pg|e] c1].
  - destruct (_ =? _)%Z.
    + exists (syncError None), (afterGet a c1 w), [].
      repeat split; simpl; auto.
    + do 2 eexists. eexists [_]. split; [reflexivity|]. simpl.
      repeat split; [by rewrite <- app_assoc|lia|].
      by repeat constructor.
  - destruct (IsNotFound e).
    + do 2 eexists. eexists [_]. split; [reflexivity|]. simpl.
      repeat split; [by rewrite <- app_assoc|lia|].
      by repeat constructor.
    + exists e, (afterGet a c1 w), []. repeat split; simpl; auto.
Qed.

(** X15.  Unless the fetch itself fails with an error other than not-found,
    the error Sync returns is one fixed text, whatever the create or update
    answered: the cause of a failed write is not in it. *)
Theorem sync_error_hides_write_outcome p size res w a r c1 :
  heap w !! p = Some a →
  pgGet (Namespace a) (getAppPodGroupName a) (cluster w) = (r, c1) →
  (∀ e, r = inr e → IsNotFound e = true) →
  ∃ w',
    syncPodGroup p size res w
    = Normal
        (Some (errorString
                 "failed to sync PodGroup with error: %!s(<nil>). Abandon schedule pods via volcano"))
        w'.
Proof.
  intros Ha Hget Hr. rewrite (syncPodGroup_eq _ _ _ _ _ Ha). cbn zeta.
  rewrite Hget. destruct r as [pg|e].
  - destruct (_ =? _)%Z; eauto.
  - rewrite (Hr e eq_refl). eauto.
Qed.

(** X16.  In client mode, for a job without an executor group annotation
    and with an instance count, the Sync step is called on a second copy of
    the job with minMember [1] and the aggregate executor vector alone, the
    driver's requests left out.  When it returns an error the call returns
    that error and no job; when it succeeds, leaving the heap alone, the job
    returned has the group name on the executor annotation and the driver
    annotations it had. *)
Theorem client_mode_sizing
    (sync : nat → Z → gmap string Quantity → @M RP Cluster (option error))
    app w a (instances : Z) :
  heap w !! app = Some a →
  Mode (Spec a) = ClientMode →
  hasKey GroupNameAnnotationKey (executorAnnotations a) = false →
  Instances (Executor (Spec a)) = Some instances →
  let executorResource :=
    sumResourceList
      (∅ :: replicate (Z.to_nat instances) (executorMinResource a)) in
  let a1 := ensureAnnotations a in
  let newApp := S (length (heap w)) in
  let w1 := pushApp a1 (pushApp a1 w) in
  (∀ e w2,
     sync newApp 1 executorResource w1 = Normal (Some e) w2 →
     DoBatchSchedulingOnSubmissionWith sync app w = Normal (None, Some e) w2)
  ∧ (∀ w2,
       sync newApp 1 executorResource w1 = Normal None w2 →
       heap w2 = heap w1 →
       ∃ job,
         DoBatchSchedulingOnSubmissionWith sync app w
         = Normal (Some newApp, None)
             {| heap := (heap w ++ [a1; job])%list; cluster := cluster w2;
                calls := calls w2 |}
         ∧ groupAnnotation (executorAnnotations job)
           = Some (getAppPodGroupName a)
         ∧ driverAnnotations job = driverAnnotations a1).
Proof.
  intros Ha Hm Hguard Hn. cbn zeta.
  assert (DoBatchSchedulingOnSubmissionWith sync app w
          = bind (sync (S (length (heap w))) 1
                    (sumResourceList
                       (∅ :: replicate (Z.to_nat instances)
                               (executorMinResource a))))
              (λ err,
                 match err with
                 | None =>
                     let* n := load (S (length (heap w))) in
                     exec setExecutorAnnotation (S (length (heap w)))
                            GroupNameAnnotationKey (getAppPodGroupName n) then
                     ret (Some (S (length (heap w))), None)
                 | Some e => ret (None, Some e)
                 end)
              (pushApp (ensureAnnotations a)
                 (pushApp (ensureAnnotations a) w))) as ->.
  { rewrite (DoBatchWith_eq _ _ _ _ Ha). cbn zeta. rewrite Hm.
    rewrite bool_decide_eq_true_2 by done.
    rewrite (ClientModeWith_eq _ _ _ _ (lookup_pushApp_new _ w)). cbn zeta.
    destruct (hasKey_ensureAnnotations a) as [-> _]. rewrite Hguard.
    rewrite ensureAnnotations_resources.
    unfold getExecutorRequestResource at 1. rewrite Hn.
    by rewrite length_pushApp. }
  destruct (ensureAnnotations_fields a)
    as (Hname & _ & _ & _ & _ & Hea & _ & _ & _).
  split.
  - intros e w2 Hsync. unfold bind. by rewrite Hsync.
  - intros w2 Hsync Hheap. unfold bind at 1. rewrite Hsync.
    simpl in Hheap.
    assert (heap w2 !! S (length (heap w)) = Some (ensureAnnotations a))
      as Hload.
    { rewrite Hheap.
      replace (S (length (heap w)))
        with (length (heap w ++ [ensureAnnotations a])%list)
        by (rewrite length_app; simpl; lia).
      by rewrite list_lookup_middle. }
    unfold bind at 1. rewrite (load_eq _ _ _ Hload).
    unfold bind at 1.
    erewrite (setExecutorAnnotation_last w2
                (heap w ++ [ensureAnnotations a])%list);
      [|exact Hheap|rewrite length_app; simpl; lia|exact Hea].
    unfold ret. eexists. split.
    { rewrite <- app_assoc. reflexivity. }
    unfold groupAnnotation, executorAnnotations, driverAnnotations,
      getAppPodGroupName. simpl.
    by rewrite lookup_insert_eq, Hname.
Qed.

(** X17.  In a mode that is neither client nor cluster the call issues no
    API call and computes no vector (so a nil instance count is harmless):
    it returns a copy of the job, nil annotation maps made empty, with a nil
    error. *)
Theorem other_modes_only_copy
    (sync : nat → Z → gmap string Quantity → @M RP Cluster (option error))
    app w a :
  heap w !! app = Some a →
  Mode (Spec a) ≠ ClientMode →
  Mode (Spec a) ≠ ClusterMode →
  DoBatchSchedulingOnSubmissionWith sync app w
  = Normal (Some (length (heap w)), None) (pushApp (ensureAnnotations a) w).
Proof.
  intros Ha Hc1 Hc2. rewrite (DoBatchWith_eq _ _ _ _ Ha). cbn zeta.
  by rewrite !bool_decide_eq_false_2.
Qed.

(** The ways a call can end. *)
Lemma DoBatch_outcomes app w a :
  heap w !! app = Some a →
  let a1 := ensureAnnotations a in
  let w' := finalWorld (DoBatchSchedulingOnSubmission app w) in
  ∃ extra,
    Forall (eq a1) extra
    ∧ heap w' = (heap w ++ extra)%list
    ∧ ((∃ p, DoBatchSchedulingOnSubmission app w = Normal (Some p, None) w'
             ∧ calls w' = calls w ∧ cluster w' = cluster w
             ∧ heap w' !! p = Some a1 ∧ (length (heap w) ≤ p)%nat)
       ∨ (DoBatchSchedulingOnSubmission app w = Panicked nilDereference w'
          ∧ calls w' = calls w ∧ cluster w' = cluster w)
       ∨ (∃ e, DoBatchSchedulingOnSubmission app w
               = Normal (None, Some e) w')).
Proof.
  intros Ha. cbn zeta. unfold DoBatchSchedulingOnSubmission.
  rewrite (DoBatchWith_eq _ _ _ _ Ha). cbn zeta.
  set (a1 := ensureAnnotations a).
  destruct (bool_decide (Mode (Spec a) = ClientMode)).
  - rewrite (ClientModeWith_eq _ _ _ _ (lookup_pushApp_new _ w)). cbn zeta.
    destruct (hasKey _ _).
    { exists [a1; a1]. simpl. split; [by repeat constructor|].
      split; [by rewrite <- app_assoc|]. left. eexists.
      split; [reflexivity|]. repeat split.
      - apply (lookup_pushApp_new _ (pushApp _ w)).
      - rewrite length_app. simpl. lia. }
    destruct (getExecutorRequestResource a1) as [res|].
    2:{ exists [a1; a1]. simpl. split; [by repeat constructor|].
        split; [by rewrite <- app_assoc|]. right. left. done. }
    destruct (syncPodGroup_always_errors (length (heap (pushApp a1 w))) 1 res
                (pushApp a1 (pushApp a1 w)) a1
                (lookup_pushApp_new _ (pushApp _ w)))
      as (e & w'' & Hs & Hh).
    unfold bind. rewrite Hs. simpl.
    exists [a1; a1]. split; [by repeat constructor|].
    split; [rewrite Hh; simpl; by rewrite <- app_assoc|].
    right. right. eauto.
  - destruct (bool_decide (Mode (Spec a) = ClusterMode)).
    + rewrite (ClusterModeWith_eq _ _ _ _ (lookup_pushApp_new _ w)).
      destruct (hasKey _ _).
      { exists [a1]. simpl. split; [by repeat constructor|].
        split; [done|]. left. eexists. split; [reflexivity|].
        repeat split; [apply lookup_pushApp_new|lia]. }
      destruct (getExecutorRequestResource a1) as [res|].
      2:{ exists [a1]. simpl. split; [by repeat constructor|].
          split; [done|]. right. left. done. }
      destruct (syncPodGroup_always_errors (length (heap w)) 1
                  (sumResourceList [res; getDriverRequestResource a1])
                  (pushApp a1 w) a1 (lookup_pushApp_new _ w))
        as (e & w'' & Hs & Hh).
      unfold bind. rewrite Hs. simpl.
      exists [a1]. split; [by repeat constructor|].
      split; [by rewrite Hh|]. right. right. eauto.
    + exists [a1]. simpl. split; [by repeat constructor|].
      split; [done|]. left. eexists. split; [reflexivity|].
      repeat split; [apply lookup_pushApp_new|lia].
Qed.

(** X18.  A call never writes to an application that was on the heap before
    it, the job submitted included, whether it returns a job, returns an
    error or panics: the heap afterwards is the heap before followed by the
    copies made, each the job with nil annotation maps made empty and
    nothing more. *)
Theorem submitted_job_never_mutated app w :
  ∃ extra,
    heap (finalWorld (DoBatchSchedulingOnSubmission app w))
    = (heap w ++ extra)%list
    ∧ ∀ a, heap w !! app = Some a →
           Forall (eq (ensureAnnotations a)) extra.
Proof.
  destruct (heap w !! app) as [a|] eqn:Ha.
  - destruct (DoBatch_outcomes app w a Ha) as (extra & Hall & Hheap & _).
    exists extra. split; [done|]. by intros ? [= <-].
  - exists []. split; [|done]. rewrite app_nil_r.
    unfold DoBatchSchedulingOnSubmission, DoBatchSchedulingOnSubmissionWith,
      DeepCopy, bind, load. by rewrite Ha.
Qed.

(** X19.  Whenever the call returns a job, it has issued no API call and the
    cluster is as it was; the job returned is a fresh copy of the one
    submitted, with the annotations that one had (nil maps made empty) and
    no group name added. *)
Theorem returned_job_is_the_submitted_one app w p w' :
  DoBatchSchedulingOnSubmission app w = Normal (Some p, None) w' →
  calls w' = calls w ∧ cluster w' = cluster w
  ∧ (length (heap w) ≤ p)%nat
  ∧ ∃ a, heap w !! app = Some a
         ∧ heap w' !! p = Some (ensureAnnotations a).
Proof.
  intros Hrun.
  destruct (heap w !! app) as [a|] eqn:Ha.
  - destruct (DoBatch_outcomes app w a Ha) as (extra & _ & _ & Hcases).
    rewrite Hrun in Hcases. simpl in Hcases.
    destruct Hcases as [(q & [= <-] & ? & ? & ? & ?)|[[? _]|[e ?]]];
      [|done|done].
    repeat split; eauto.
  - exfalso. revert Hrun.
    unfold DoBatchSchedulingOnSubmission, DoBatchSchedulingOnSubmissionWith,
      DeepCopy, bind, load. by rewrite Ha.
Qed.

(** X20.  The group name determines the job name: two jobs get the same
    group name only if they have the same name. *)
Theorem group_name_injective a b :
  getAppPodGroupName a = getAppPodGroupName b → Name a = Name b.
Proof.
  unfold getAppPodGroupName. intros H. simpl in H.
  injection H as H.
  assert (∀ s t u : string, s +:+ u = t +:+ u → s = t) as Hcancel.
  { intros s t u Hst.
    assert (∀ x y : string,
              String.length (x +:+ y)
              = (String.length x + String.length y)%nat) as Happ.
    { intros x y. induction x as [|c x IH]; simpl; [done|]. by rewrite IH. }
    assert (String.length s = String.length t) as Hlen.
    { apply (f_equal String.length) in Hst. rewrite !Happ in Hst. lia. }
    clear Happ.
    revert t Hst Hlen. induction s as [|c s IH]; intros [|d t] Hst Hlen;
      simplify_eq/=; [done|]. f_equal. by apply IH. }
  change (Name a +:+ "-pg" = Name b +:+ "-pg") in H.
  by apply Hcancel in H.
Qed.

End CoordinatorFurther.

(** ** Construction *)

Section ConstructionProperties.
Context {Config VolcanoClient ExtensionClient : Type}.
Context (volcanoNewForConfig : Config → VolcanoClient + error).
Context (extensionNewForConfig : Config → ExtensionClient + error).
Context (getCustomResourceDefinition : ExtensionClient → string → option error).

(** X21.  [New] hands out a scheduler exactly when both clients could be
    built from the configuration and the fetch of the definition named
    [podgroups.scheduling.sigs.dev] through the extension client raised no
    error; the scheduler then holds those two clients. *)
Theorem New_requires_clients_and_definition (config : Config) s :
  New _ _ _ volcanoNewForConfig extensionNewForConfig
    getCustomResourceDefinition config = inl s
  ↔ ∃ vkClient extClient,
      volcanoNewForConfig config = inl vkClient
      ∧ extensionNewForConfig config = inl extClient
      ∧ getCustomResourceDefinition extClient "podgroups.scheduling.sigs.dev"
        = None
      ∧ s = {| extensionClient := extClient; volcanoClient := vkClient |}.
Proof.
  unfold New, PodGroupName. split.
  - destruct (volcanoNewForConfig config) as [vk|]; [|done].
    destruct (extensionNewForConfig config) as [ext|]; [|done].
    destruct (getCustomResourceDefinition ext _) eqn:Hcrd; [done|].
    intros [= <-]. eauto 10.
  - intros (vk & ext & -> & -> & Hcrd & ->). by rewrite Hcrd.
Qed.

End ConstructionProperties.

(** ** The code run on concrete jobs *)

Import Reference.

(** Closes an equation between closed terms by running both sides. *)
Ltac by_running :=
  lazymatch goal with
  | |- @eq ?T _ ?r => vm_cast_no_check (@eq_refl T r)
  end.

(** C1.  The group of the job is on the cluster with the minMember asked
    for: [syncPodGroup] issues the fetch and nothing else, leaves the cluster
    as it was, and still returns a non-nil error, the one its last line
    builds from the error variable nothing assigns; and
    [DoBatchSchedulingOnSubmission] in turn returns that error and no job.
    On an empty cluster the create goes through, the group is there
    afterwards, and the error is returned all the same. *)
Theorem matching_group_sync_reports_failure :
  let run := syncPodGroup 0 1 ∅ worldMatching in
  let created := syncPodGroup 0 1 ∅ (worldEmpty (sparkPi ClusterMode (Some 1))) in
  returned run = Some (Some (syncError None))
  ∧ calls (finalWorld run) = [CallGet "default" "spark-spark-pi-pg"]
  ∧ cluster (finalWorld run) = cluster worldMatching
  ∧ returned (DoBatchSchedulingOnSubmission 0 worldMatching)
    = Some (None,
            Some (errorString
                    "failed to sync PodGroup with error: %!s(<nil>). Abandon schedule pods via volcano"))
  ∧ returned created = Some (Some (syncError None))
  ∧ objects (cluster (finalWorld created)) !! ("default", "spark-spark-pi-pg")
    = Some (sparkPiGroup 1).
Proof. cbn zeta. repeat split; by_running. Qed.

(** C2, counterexample.  A driver with core request 2, cores 4 and core
    limit 8: the chain of the claim resolves to 2, the driver's vector
    holds 4. *)
Lemma driver_cpu_ignores_core_request :
  CoreRequest (rolePod DriverRole jobFallback) = Some "2"
  ∧ cpuFirstPresent (rolePod DriverRole jobFallback) = ParseQuantity "2"
  ∧ roleVector DriverRole jobFallback !! ResourceCPU = ParseQuantity "4"
  ∧ roleVector DriverRole jobFallback !! ResourceCPU
    ≠ cpuFirstPresent (rolePod DriverRole jobFallback).
Proof.
  repeat split; try by_running.
  intros H. vm_compute in H. discriminate H.
Qed.

(** The executor of the same job resolves to 2 per instance. *)
Example executor_cpu_request_wins :
  roleVector ExecutorRole jobFallback !! ResourceCPU = ParseQuantity "2".
Proof. by_running. Qed.

(** C3, counterexample.  A rival submission creates the group, sized 5,
    between the fetch and the create.  The create is refused as already
    existing and Sync stops there: the trace has no update and the group
    keeps size 5, whereas on a cluster where the fetch finds that group Sync
    updates it to size 1. *)
Lemma create_conflict_not_treated_as_found :
  let raced := syncPodGroup 0 1 ∅ worldRace in
  let found := syncPodGroup 0 1 ∅ worldFound in
  let group := newPodGroup (sparkPi ClusterMode (Some 1)) "spark-spark-pi-pg" 1 ∅ in
  (fakeCreate "default" group (landRival (cluster worldRace))).1
  = Some (alreadyExists "spark-spark-pi-pg")
  ∧ calls (finalWorld raced)
    = [CallGet "default" "spark-spark-pi-pg"; CallCreate "default" group]
  ∧ calls (finalWorld found)
    = [CallGet "default" "spark-spark-pi-pg";
       CallUpdate "default" (sparkPiGroup 1)]
  ∧ objects (cluster (finalWorld raced)) !! ("default", "spark-spark-pi-pg")
    = Some (sparkPiGroup 5)
  ∧ objects (cluster (finalWorld found)) !! ("default", "spark-spark-pi-pg")
    = Some (sparkPiGroup 1)
  ∧ cluster (finalWorld raced) ≠ cluster (finalWorld found).
Proof.
  cbn zeta. repeat split; try by_running.
  intros H.
  apply (f_equal (λ c, (MinMember ∘ pgSpec) <$>
                         objects c !! ("default", "spark-spark-pi-pg"))) in H.
  vm_compute in H. discriminate H.
Qed.

Lemma create_conflict_ends_sync_witness :
  ∃ e w',
    syncPodGroup 0 1 ∅ worldRace = Normal (Some e) w'
    ∧ cluster w' = landRival (cluster worldRace)
    ∧ calls w'
      = [CallGet "default" "spark-spark-pi-pg";
         CallCreate "default"
           (newPodGroup (sparkPi ClusterMode (Some 1))
              "spark-spark-pi-pg" 1 ∅)].
Proof.
  apply (create_conflict_ends_sync 0 1 ∅ worldRace
           (sparkPi ClusterMode (Some 1))
           (notFound "spark-spark-pi-pg") (landRival (cluster worldRace))
           (alreadyExists "spark-spark-pi-pg") (landRival (cluster worldRace)));
    reflexivity.
Defined.

Lemma nil_instances_panic_witness :
  let job := sparkPi ClientMode None in
  getExecutorRequestResource job = None
  ∧ ∃ w', DoBatchSchedulingOnSubmission 0 (worldEmpty job)
          = Panicked nilDereference w'
          ∧ calls w' = [] ∧ cluster w' = clusterOf [].
Proof.
  apply (nil_instances_panic 0 (worldEmpty (sparkPi ClientMode None))
           (sparkPi ClientMode None));
    [reflexivity | reflexivity | left; reflexivity | reflexivity].
Defined.

(** The same in cluster mode. *)
Example nil_instances_panic_cluster_mode :
  returned (DoBatchSchedulingOnSubmission 0
              (worldEmpty (sparkPi ClusterMode None))) = None
  ∧ calls (finalWorld (DoBatchSchedulingOnSubmission 0
                         (worldEmpty (sparkPi ClusterMode None)))) = [].
Proof. split; by_running. Qed.

Lemma annotation_guard_idempotent_witness :
  let job := sparkPiAnnotated ClientMode in
  ∃ p1 w1,
    DoBatchSchedulingOnSubmission 0 (worldEmpty job) = Normal (Some p1, None) w1
    ∧ calls w1 = [] ∧ cluster w1 = clusterOf []
    ∧ heap w1 !! p1 = Some (ensureAnnotations job)
    ∧ ∀ q, q = 0%nat ∨ q = p1 →
        ∃ p2 w2,
          DoBatchSchedulingOnSubmission q w1 = Normal (Some p2, None) w2
          ∧ calls w2 = [] ∧ cluster w2 = clusterOf []
          ∧ heap w2 !! p2 = Some (ensureAnnotations job).
Proof.
  apply (annotation_guard_idempotent 0
           (worldEmpty (sparkPiAnnotated ClientMode))
           (sparkPiAnnotated ClientMode));
    [reflexivity | left; reflexivity | reflexivity].
Defined.

Lemma cluster_mode_sizing_witness :
  let job := sparkPi ClusterMode (Some 3) in
  ∃ stampedJob,
    DoBatchSchedulingOnSubmissionWith syncOk 0 (worldEmpty job)
    = Normal (Some 1%nat, None)
        {| heap := [job; stampedJob]; cluster := clusterOf []; calls := [] |}
    ∧ groupAnnotation (driverAnnotations stampedJob) = Some "spark-spark-pi-pg"
    ∧ groupAnnotation (executorAnnotations stampedJob)
      = Some "spark-spark-pi-pg".
Proof.
  exact (proj1 (proj2 (proj2
                  (cluster_mode_sizing (RP := nanoResource) syncOk 0
                     (worldEmpty (sparkPi ClusterMode (Some 3)))
                     (sparkPi ClusterMode (Some 3)) 3
                     eq_refl eq_refl eq_refl eq_refl)))
           (pushApp (ensureAnnotations (sparkPi ClusterMode (Some 3)))
              (worldEmpty (sparkPi ClusterMode (Some 3))))
           eq_refl eq_refl).
Defined.

Lemma executor_multiplicity_witness :
  ∃ aggregate,
    getExecutorRequestResource jobThreeExecutors = Some aggregate
    ∧ aggregate
      = sumResourceList (replicate 3 (executorMinResource jobThreeExecutors))
    ∧ (∀ name,
         aggregate !! name
         = repeatAdd 2 <$> executorMinResource jobThreeExecutors !! name)
    ∧ (3 = 0 → aggregate = ∅).
Proof.
  apply (executor_multiplicity jobThreeExecutors 3); [reflexivity | lia].
Defined.

(** Three instances of 1Gi make 3Gi; no instance makes the empty vector. *)
Example three_executors_of_1Gi :
  getExecutorRequestResource jobThreeExecutors ≫= (.!! ResourceMemory)
  = ParseQuantity "3Gi".
Proof. by_running. Qed.

Example no_executor_no_resources :
  getExecutorRequestResource
    (job "none" ClientMode podRequestCoresLimit podRequestCoresLimit (Some 0))
  = Some ∅.
Proof. by_running. Qed.

Lemma memory_resolution_witness :
  roleVector DriverRole jobMemory !! ResourceMemory = ParseQuantity "640Mi"
  ∧ roleVector DriverRole jobMemoryOnly !! ResourceMemory
    = ParseQuantity "512Mi"
  ∧ roleVector ExecutorRole jobMemory !! ResourceMemory = None.
Proof.
  split; [|split].
  - apply (proj1 (memory_resolution DriverRole jobMemory)
             "512Mi" "128Mi" 536870912000000000 134217728000000000);
      reflexivity.
  - apply (proj1 (proj2 (memory_resolution DriverRole jobMemoryOnly))
             "512Mi" 536870912000000000);
      reflexivity.
  - apply (proj2 (proj2 (memory_resolution ExecutorRole jobMemory)));
      reflexivity.
Defined.

Lemma sync_failure_leaves_job_unannotated_witness :
  let job := sparkPi ClusterMode (Some 1) in
  let w' :=
    finalWorld
      (syncPodGroup 1 1
         (sumResourceList
            [sumResourceList (∅ :: replicate 1 (executorMinResource job));
             getDriverRequestResource job])
         (pushApp (ensureAnnotations job) (worldEmpty job))) in
  DoBatchSchedulingOnSubmission 0 (worldEmpty job)
  = Normal (None, Some (syncError None)) w'
  ∧ heap w' !! 0%nat = Some job
  ∧ Forall (sameGroupAnnotations job) (drop 1 (heap w')).
Proof.
  refine (proj2 (sync_failure_leaves_job_unannotated 0
                   (worldEmpty (sparkPi ClusterMode (Some 1)))
                   (sparkPi ClusterMode (Some 1)) 1
                   eq_refl eq_refl eq_refl) eq_refl (syncError None) _ _).
  by_running.
Defined.

(** ** Further runs on concrete jobs *)

Lemma single_instance_aggregate_witness :
  getExecutorRequestResource jobOneExecutor
  = Some (executorMinResource jobOneExecutor).
Proof. apply (single_instance_aggregate jobOneExecutor). reflexivity. Defined.

Lemma negative_instances_give_nothing_witness :
  getExecutorRequestResource jobNegativeInstances = Some ∅.
Proof.
  apply (negative_instances_give_nothing jobNegativeInstances (-2));
    [reflexivity | lia].
Defined.

Lemma range_order_is_irrelevant_witness :
  let m : gmap string Quantity := {[ "cpu" := 2%Z; "memory" := 5%Z ]} in
  let total : gmap string Quantity := {[ "memory" := 1%Z ]} in
  rangeInto total (reverse (map_to_list m)) = map_fold addEntry total m.
Proof.
  apply (range_order_is_irrelevant (RP := nanoResource)).
  apply reverse_Permutation.
Defined.

Lemma sum_splits_over_append_witness :
  let a : gmap string Quantity := {[ "cpu" := 2%Z ]} in
  let b : gmap string Quantity := {[ "cpu" := 3%Z; "memory" := 5%Z ]} in
  sumResourceList ([a; b] ++ [b])
  = sumResourceList [sumResourceList [a; b]; sumResourceList [b]].
Proof.
  apply (sum_splits_over_append (RP := nanoResource)).
  intros x y z. simpl. lia.
Defined.

Lemma sum_ignores_vector_order_witness :
  let a : gmap string Quantity := {[ "cpu" := 2%Z ]} in
  let b : gmap string Quantity := {[ "cpu" := 3%Z; "memory" := 5%Z ]} in
  sumResourceList [a; b] = sumResourceList [b; a].
Proof.
  apply (sum_ignores_vector_order (RP := nanoResource)).
  - intros x y z. simpl. lia.
  - intros x y. simpl. lia.
  - apply Permutation_swap.
Defined.

Lemma vectors_hold_cpu_and_memory_only_witness :
  getDriverRequestResource jobMemory !! "nvidia.com/gpu" = None
  ∧ executorMinResource jobMemory !! "nvidia.com/gpu" = None
  ∧ ∀ aggregate,
      getExecutorRequestResource jobMemory = Some aggregate →
      aggregate !! "nvidia.com/gpu" = None.
Proof.
  apply (vectors_hold_cpu_and_memory_only jobMemory "nvidia.com/gpu");
    intros [=].
Defined.

Lemma unusable_fields_give_empty_vector_witness :
  roleVector ExecutorRole jobUnparsable = ∅
  ∧ (ExecutorRole = ExecutorRole →
     ∀ n, Instances (Executor (Spec jobUnparsable)) = Some n →
          getExecutorRequestResource jobUnparsable = Some ∅).
Proof.
  apply (unusable_fields_give_empty_vector ExecutorRole jobUnparsable);
    [intros _ | | | ]; reflexivity.
Defined.

Lemma memory_parse_failures_witness :
  roleVector DriverRole jobBadOverhead !! ResourceMemory
  = ParseQuantity "512Mi"
  ∧ roleVector ExecutorRole jobBadOverhead !! ResourceMemory = None.
Proof.
  split.
  - apply (proj1 (memory_parse_failures DriverRole jobBadOverhead)
             "512Mi" 536870912000000000);
      reflexivity.
  - apply (proj2 (memory_parse_failures ExecutorRole jobBadOverhead)).
    reflexivity.
Defined.

Lemma fetch_error_returned_verbatim_witness :
  let job := sparkPi ClusterMode (Some 1) in
  syncPodGroup 0 1 ∅ (worldOutage job)
  = Normal (Some connectionRefused)
      (afterGet job (cluster (worldOutage job)) (worldOutage job)).
Proof.
  apply (fetch_error_returned_verbatim 0 1 ∅
           (worldOutage (sparkPi ClusterMode (Some 1)))
           (sparkPi ClusterMode (Some 1)));
    reflexivity.
Defined.

Lemma existing_group_only_resized_witness :
  syncPodGroup 0 1 {[ "cpu" := 7%Z ]} worldFound
  = syncPodGroup 0 1 ∅ worldFound.
Proof.
  refine (proj2 (proj2 (proj2 (proj2 (proj2
            (existing_group_only_resized 0 1 ∅ worldFound
               (sparkPi ClusterMode (Some 1)) (sparkPiGroup 5)
               (cluster worldFound) eq_refl _ _)))))
            {[ "cpu" := 7%Z ]}).
  - by_running.
  - intros [=].
Defined.

Lemma missing_group_created_for_job_witness :
  let job := sparkPi ClusterMode (Some 1) in
  ∃ podGroup owner err w',
    syncPodGroup 0 1 ∅ (worldEmpty job) = Normal (Some err) w'
    ∧ calls w'
      = (calls (worldEmpty job)
         ++ [CallGet (Namespace job) (getAppPodGroupName job);
             CallCreate (Namespace job) podGroup])%list
    ∧ cluster w' = (pgCreate (Namespace job) podGroup (clusterOf [])).2
    ∧ pgName podGroup = "spark-" ++ Name job ++ "-pg"
    ∧ pgNamespace podGroup = Namespace job
    ∧ pgSpec podGroup = {| MinMember := 1; MinResources := Some ∅ |}
    ∧ pgOwnerReferences podGroup = [owner]
    ∧ orName owner = Name job ∧ orUID owner = UID job
    ∧ orKind owner = "SparkApplication"
    ∧ orController owner = Some true.
Proof.
  exact (missing_group_created_for_job 0 1 ∅
           (worldEmpty (sparkPi ClusterMode (Some 1)))
           (sparkPi ClusterMode (Some 1))
           (notFound "spark-spark-pi-pg") (clusterOf [])
           eq_refl eq_refl eq_refl).
Defined.

Lemma sync_trace_shape_witness :
  ∃ e w' rest,
    syncPodGroup 0 1 ∅ worldRace = Normal (Some e) w'
    ∧ heap w' = heap worldRace
    ∧ calls w' = CallGet "default" "spark-spark-pi-pg" :: rest
    ∧ (length rest ≤ 1)%nat
    ∧ Forall (λ call, isWrite call = true) rest.
Proof.
  apply (sync_trace_shape 0 1 ∅ worldRace (sparkPi ClusterMode (Some 1))).
  reflexivity.
Defined.

Lemma sync_error_hides_write_outcome_witness :
  ∃ w',
    syncPodGroup 0 1 ∅ worldRace
    = Normal
        (Some (errorString
                 "failed to sync PodGroup with error: %!s(<nil>). Abandon schedule pods via volcano"))
        w'.
Proof.
  apply (sync_error_hides_write_outcome 0 1 ∅ worldRace
           (sparkPi ClusterMode (Some 1))
           (inr (notFound "spark-spark-pi-pg"))
           (landRival (cluster worldRace)));
    [reflexivity | reflexivity | intros e [= <-]; reflexivity].
Defined.

Lemma client_mode_sizing_witness :
  let job := sparkPi ClientMode (Some 3) in
  ∃ stampedJob,
    DoBatchSchedulingOnSubmissionWith syncOk 0 (worldEmpty job)
    = Normal (Some 2%nat, None)
        {| heap := [job; ensureAnnotations job; stampedJob];
           cluster := clusterOf []; calls := [] |}
    ∧ groupAnnotation (executorAnnotations stampedJob)
      = Some "spark-spark-pi-pg"
    ∧ driverAnnotations stampedJob = Some ∅.
Proof.
  exact (proj2 (client_mode_sizing (RP := nanoResource) syncOk 0
                  (worldEmpty (sparkPi ClientMode (Some 3)))
                  (sparkPi ClientMode (Some 3)) 3
                  eq_refl eq_refl eq_refl eq_refl)
           (pushApp (ensureAnnotations (sparkPi ClientMode (Some 3)))
              (pushApp (ensureAnnotations (sparkPi ClientMode (Some 3)))
                 (worldEmpty (sparkPi ClientMode (Some 3)))))
           eq_refl eq_refl).
Defined.

Lemma other_modes_only_copy_witness :
  let job := sparkPi InClusterClientMode None in
  DoBatchSchedulingOnSubmissionWith syncPodGroup 0 (worldEmpty job)
  = Normal (Some 1%nat, None)
      (pushApp (ensureAnnotations job) (worldEmpty job)).
Proof.
  apply (other_modes_only_copy syncPodGroup 0
           (worldEmpty (sparkPi InClusterClientMode None))
           (sparkPi InClusterClientMode None));
    [reflexivity | intros [=] | intros [=]].
Defined.

Lemma returned_job_is_the_submitted_one_witness :
  let job := sparkPiAnnotated ClusterMode in
  let w' := finalWorld (DoBatchSchedulingOnSubmission 0 (worldEmpty job)) in
  calls w' = [] ∧ cluster w' = clusterOf []
  ∧ (1 ≤ 1)%nat
  ∧ ∃ a, heap (worldEmpty job) !! 0%nat = Some a
         ∧ heap w' !! 1%nat = Some (ensureAnnotations a).
Proof.
  refine (returned_job_is_the_submitted_one 0
            (worldEmpty (sparkPiAnnotated ClusterMode)) 1 _ _).
  by_running.
Defined.

Lemma group_name_injective_witness :
  Name (sparkPi ClientMode (Some 1)) = Name (sparkPiAnnotated ClusterMode).
Proof.
  apply (group_name_injective (sparkPi ClientMode (Some 1))
           (sparkPiAnnotated ClusterMode)).
  reflexivity.
Defined.
